(** * A shallow embedding of the [http] package of go.util

    The package provides a fluent request builder ([Request]) on top of a
    thin [Client].  This file models [src/http/constants.go],
    [src/http/request.go] and the client file, and proves properties of
    the builder and of its terminal operation [Request.Do].

    Modelling choices:
    - Go strings and byte slices are Rocq [string]s (both are byte
      sequences; [len] is [String.length]).
    - A Go [error] is its [Error()] text: every [fmt.Errorf] site of the
      source becomes a function producing that text.
    - Go maps are stdpp [gmap string string]; the iteration order of
      [range] over a map is unspecified in Go, so it is supplied by a
      [range_oracle] which must enumerate each map exactly (a permutation
      of [map_to_list]).
    - [*Request] is a location into a heap of builders; the methods take
      and return locations, and a dereference of a dangling location is a
      panic ([None]).
    - The transport ([http.Client.Do]), the JSON/XML codecs and
      [http.NewRequest]'s validation are collaborators outside the
      repository: they are fields of a [Client] or of an [Env]. *)

From Stdlib Require Import String Ascii ZArith List Lia.
From stdpp Require Import base gmap strings list fin_maps.

Local Open Scope string_scope.

(* ------------------------------------------------------------------ *)
(** ** String helpers from Go's standard library *)

Module GoStrings.

(** [strings.HasPrefix]. *)
Fixpoint has_prefix (p s : string) : bool :=
  match p, s with
  | EmptyString, _ => true
  | String a p', String b s' => Ascii.eqb a b && has_prefix p' s'
  | String _ _, EmptyString => false
  end.

(** Digits of a natural number, as [strconv]/[fmt] print it. *)
Fixpoint digits_aux (fuel n : nat) (acc : string) : string :=
  match fuel with
  | O => acc
  | S f =>
      let d := ascii_of_nat (48 + Nat.modulo n 10) in
      if Nat.ltb n 10 then String d acc
      else digits_aux f (Nat.div n 10) (String d acc)
  end.

Definition nat_decimal (n : nat) : string := digits_aux (S n) n "".

(** [fmt.Sprintf("%d", z)] for an [int]. *)
Definition int_decimal (z : Z) : string :=
  if (z <? 0)%Z then "-" ++ nat_decimal (Z.to_nat (- z))
  else nat_decimal (Z.to_nat z).

(** [strings.Trim(s, " ")]: removes every leading and trailing space. *)
Fixpoint trim_left_space (s : string) : string :=
  match s with
  | String " "%char s' => trim_left_space s'
  | _ => s
  end.

Definition rev_string (s : string) : string :=
  string_of_list_ascii (List.rev (list_ascii_of_string s)).

Definition trim_space (s : string) : string :=
  rev_string (trim_left_space (rev_string (trim_left_space s))).

(** The byte count of the UTF-8 sequence [utf8.DecodeRuneInString] reads
    at the start of a non-empty string (1 for an invalid sequence). *)
Definition in_range (lo hi : nat) (c : ascii) : bool :=
  Nat.leb lo (nat_of_ascii c) && Nat.leb (nat_of_ascii c) hi.

Definition rune_width (s : string) : nat :=
  match s with
  | EmptyString => 0
  | String c0 r =>
      let n0 := nat_of_ascii c0 in
      let cont := in_range 128 191 in
      if Nat.ltb n0 128 then 1
      else if in_range 194 223 c0 then
        match r with String c1 _ => if cont c1 then 2 else 1 | _ => 1 end
      else if in_range 224 239 c0 then
        let lo := if Nat.eqb n0 224 then 160 else 128 in
        let hi := if Nat.eqb n0 237 then 159 else 191 in
        match r with
        | String c1 (String c2 _) =>
            if in_range lo hi c1 && cont c2 then 3 else 1
        | _ => 1
        end
      else if in_range 240 244 c0 then
        let lo := if Nat.eqb n0 240 then 144 else 128 in
        let hi := if Nat.eqb n0 244 then 143 else 191 in
        match r with
        | String c1 (String c2 (String c3 _)) =>
            if in_range lo hi c1 && cont c2 && cont c3 then 4 else 1
        | _ => 1
        end
      else 1
  end.

(** [strings.Replace(s, old, new, -1)] with a non-empty [old]: scan from
    the left, and at each position where [old] starts, emit [new] and
    continue after the occurrence (Go's [Index] loop). *)
Fixpoint replace_ne (fuel : nat) (s old new : string) : string :=
  match fuel with
  | O => s
  | S f =>
      match s with
      | EmptyString => EmptyString
      | String c s' =>
          if has_prefix old s
          then new ++ replace_ne f (substring (String.length old) (String.length s) s) old new
          else String c (replace_ne f s' old new)
      end
  end.

(** With an empty [old], Go inserts [new] at the start and after each
    UTF-8 sequence. *)
Fixpoint replace_empty (fuel : nat) (s new : string) : string :=
  match fuel with
  | O => s
  | S f =>
      match s with
      | EmptyString => EmptyString
      | String _ _ =>
          let w := rune_width s in
          substring 0 w s ++ new ++ replace_empty f (substring w (String.length s) s) new
      end
  end.

(** [strings.Count(s, old) > 0] for a non-empty [old]. *)
Fixpoint contains (s old : string) : bool :=
  has_prefix old s ||
  match s with EmptyString => false | String _ s' => contains s' old end.

(** [strings.Replace(s, old, new, -1)]. *)
Definition replace_all (s old new : string) : string :=
  if String.eqb old new then s
  else match old with
       | EmptyString => new ++ replace_empty (String.length s) s new
       | String _ _ =>
           if negb (contains s old) then s
           else replace_ne (String.length s) s old new
       end.

(** [strings.Join(elems, sep)]. *)
Fixpoint join (elems : list string) (sep : string) : string :=
  match elems with
  | [] => ""
  | [e] => e
  | e :: rest => e ++ sep ++ join rest sep
  end.

(** [url.QueryEscape]: unreserved bytes are kept, a space becomes '+',
    every other byte becomes %XX with upper-case hex digits. *)
Definition hex_digit (n : nat) : ascii :=
  if Nat.ltb n 10 then ascii_of_nat (48 + n) else ascii_of_nat (55 + n).

Definition unreserved (c : ascii) : bool :=
  in_range 65 90 c || in_range 97 122 c || in_range 48 57 c ||
  Ascii.eqb c "-" || Ascii.eqb c "_" || Ascii.eqb c "." || Ascii.eqb c "~".

Fixpoint query_escape (s : string) : string :=
  match s with
  | EmptyString => EmptyString
  | String c s' =>
      if unreserved c then String c (query_escape s')
      else if Ascii.eqb c " " then String "+" (query_escape s')
      else String "%" (String (hex_digit (nat_of_ascii c / 16))
                         (String (hex_digit (nat_of_ascii c mod 16))
                            (query_escape s')))
  end.

End GoStrings.
Import GoStrings.

Example trim_ex : trim_space "  abc d  " = "abc d".
Proof. reflexivity. Qed.
Example escape_ex : query_escape "a b/?" = "a+b%2F%3F".
Proof. reflexivity. Qed.
Example replace_ex : replace_all "/users/:id/x:id" ":id" "42" = "/users/42/x42".
Proof. reflexivity. Qed.
Example replace_empty_ex : replace_all "ab" "" "-" = "-a-b-".
Proof. reflexivity. Qed.
Example decimal_ex : int_decimal (-404) = "-404" /\ nat_decimal 0 = "0".
Proof. split; reflexivity. Qed.

(** [textproto.CanonicalMIMEHeaderKey], used by [Header.Set] and
    [Header.Get]: a key with a byte that is not a token byte is left as it
    is; otherwise the first letter and each letter after '-' is upper-case
    and every other letter lower-case. *)
Definition token_byte (c : ascii) : bool :=
  in_range 65 90 c || in_range 97 122 c || in_range 48 57 c ||
  existsb (Ascii.eqb c) (list_ascii_of_string "!#$%&'*+-.^_`|~").

Definition upper (c : ascii) : ascii :=
  if in_range 97 122 c then ascii_of_nat (nat_of_ascii c - 32) else c.
Definition lower (c : ascii) : ascii :=
  if in_range 65 90 c then ascii_of_nat (nat_of_ascii c + 32) else c.

Fixpoint canon_aux (up : bool) (s : string) : string :=
  match s with
  | EmptyString => EmptyString
  | String c s' =>
      String (if up then upper c else lower c) (canon_aux (Ascii.eqb c "-") s')
  end.

Definition canonical_header_key (s : string) : string :=
  if forallb token_byte (list_ascii_of_string s) then canon_aux true s else s.

Example canonical_ex : canonical_header_key "content-type" = "Content-Type".
Proof. reflexivity. Qed.

(* ------------------------------------------------------------------ *)
(** ** constants.go *)

(** [MIME], [Header] and [Method] are Go string types; [Status] is an
    [int]. *)
Definition MIME := string.
Definition Header := string.
Definition Method := string.
Definition Status := Z.

Definition NewMIME (mime : string) : MIME := mime.
Definition NewStatus (statusCode : Z) : Status := statusCode.

Definition charsetUTF8 : string := "charset=UTF-8".
Definition MIMEApplicationJSON : MIME := "application/json".
Definition MIMEApplicationJSONCharsetUTF8 : MIME :=
  MIMEApplicationJSON ++ "; " ++ charsetUTF8.
Definition MIMEApplicationXML : MIME := "application/xml".
Definition MIMEApplicationXMLCharsetUTF8 : MIME :=
  MIMEApplicationXML ++ "; " ++ charsetUTF8.
Definition MIMETextPlain : MIME := "text/plain".

Definition HeaderAuthorization : Header := "Authorization".
Definition HeaderContentLength : Header := "Content-Length".
Definition HeaderContentType : Header := "Content-Type".

Definition MethodGet : Method := "GET".
Definition MethodPost : Method := "POST".

(** [http.StatusText] (net/http/status.go); "" for an unknown code. *)
Definition status_table : list (Z * string) :=
  [(100, "Continue"); (101, "Switching Protocols"); (102, "Processing");
   (103, "Early Hints");
   (200, "OK"); (201, "Created"); (202, "Accepted");
   (203, "Non-Authoritative Information"); (204, "No Content");
   (205, "Reset Content"); (206, "Partial Content"); (207, "Multi-Status");
   (208, "Already Reported"); (226, "IM Used");
   (300, "Multiple Choices"); (301, "Moved Permanently"); (302, "Found");
   (303, "See Other"); (304, "Not Modified"); (305, "Use Proxy");
   (307, "Temporary Redirect"); (308, "Permanent Redirect");
   (400, "Bad Request"); (401, "Unauthorized"); (402, "Payment Required");
   (403, "Forbidden"); (404, "Not Found"); (405, "Method Not Allowed");
   (406, "Not Acceptable"); (407, "Proxy Authentication Required");
   (408, "Request Timeout"); (409, "Conflict"); (410, "Gone");
   (411, "Length Required"); (412, "Precondition Failed");
   (413, "Request Entity Too Large"); (414, "Request URI Too Long");
   (415, "Unsupported Media Type"); (416, "Requested Range Not Satisfiable");
   (417, "Expectation Failed"); (418, "I'm a teapot");
   (421, "Misdirected Request");
   (422, "Unprocessable Entity"); (423, "Locked"); (424, "Failed Dependency");
   (425, "Too Early"); (426, "Upgrade Required"); (428, "Precondition Required");
   (429, "Too Many Requests"); (431, "Request Header Fields Too Large");
   (451, "Unavailable For Legal Reasons");
   (500, "Internal Server Error"); (501, "Not Implemented");
   (502, "Bad Gateway"); (503, "Service Unavailable");
   (504, "Gateway Timeout"); (505, "HTTP Version Not Supported");
   (506, "Variant Also Negotiates"); (507, "Insufficient Storage");
   (508, "Loop Detected"); (510, "Not Extended");
   (511, "Network Authentication Required")]%Z.

Definition StatusText (code : Z) : string :=
  match List.find (fun p => Z.eqb (fst p) code) status_table with
  | Some (_, t) => t
  | None => ""
  end.

Definition Status_Int (s : Status) : Z := s.

(** [Status.String]: [fmt.Sprintf("%d: %s", code, http.StatusText(code))]. *)
Definition Status_String (s : Status) : string :=
  let statusCode := Status_Int s in
  int_decimal statusCode ++ ": " ++ StatusText statusCode.

(** [Status.IsSuccess]. *)
Definition IsSuccess (s : Status) : bool :=
  let statusCode := Status_Int s in
  (200 <=? statusCode)%Z && (statusCode <? 300)%Z.

Example status_string_ex : Status_String 404%Z = "404: Not Found".
Proof. reflexivity. Qed.

(* ------------------------------------------------------------------ *)
(** ** Values, errors and the HTTP collaborators *)

(** A Go [error], as its [Error()] text. *)
Definition error := string.

(** A [(T, error)] pair of Go: exactly one side is meaningful. *)
Inductive result (A : Type) : Type :=
| Ok (a : A)
| Err (e : error).
Arguments Ok {A} a.
Arguments Err {A} e.

(** The body handed to [SetBody] ([interface{}]): a string or a
    [map[string]string], whose entries are listed in the key order in
    which [fmt] prints a map. *)
Inductive value : Type :=
| VString (s : string)
| VStringMap (kvs : list (string * string)).

(** [fmt]'s [%s] verb applied to a value. *)
Definition fmt_s (v : value) : string :=
  match v with
  | VString s => s
  | VStringMap kvs =>
      "map[" ++ join (List.map (fun '(k, x) => k ++ ":" ++ x) kvs) " " ++ "]"
  end.

(** The [fmt.Errorf] sites of request.go. *)
Definition err_not_defined (h : Header) : error := h ++ " is not defined".
Definition err_serializing (val : value) : error :=
  "serializing format '" ++ fmt_s val ++ "' is not supported".
Definition err_deserializing (mime : MIME) : error :=
  "deserializing format '" ++ mime ++ "' is not supported".
Definition err_status (s : Status) : error :=
  "http request failed, got status: " ++ Status_String s.
Definition err_no_format (h : Header) : error :=
  "could not auto-detect response format, header '" ++ h ++ "' is not set".

(** [context.Context], by identity; [context.Background()] is 0. *)
Definition Context := nat.
Definition Background : Context := 0.

(** The [*http.Request] built by [Do]. *)
Record http_request := mkHttpRequest {
  hr_method : string;
  hr_url : string;
  hr_body : string;
  hr_context : Context;
  hr_header : gmap string string
}.

(** The [*http.Response] returned by the transport: its status code, its
    header (first value per canonical key), the body bytes, and the
    errors that reading and closing the body report. *)
Record response := mkResponse {
  res_status : Z;
  res_header : gmap string string;
  res_body : string;
  res_read_err : option error;
  res_close_err : option error
}.

(** [Header.Get]. *)
Definition header_get (h : gmap string string) (key : string) : string :=
  match h !! canonical_header_key key with Some v => v | None => "" end.

(** [Client]: wraps an [*http.Client], whose [Do] is the transport. *)
Record Client := mkClient { inner_do : http_request -> result response }.

(** The output sink [out interface{}]: an address, [None] for nil. *)
Definition sink := positive.

(** Collaborators of the package: [encoding/json], [encoding/xml] and
    [http.NewRequest]'s validation of the method and URL. *)
Record Env := mkEnv {
  json_marshal : value -> result string;
  xml_marshal : value -> result string;
  json_unmarshal : string -> sink -> option error;
  xml_unmarshal : string -> sink -> option error;
  new_request_check : string -> string -> option error
}.

(* ------------------------------------------------------------------ *)
(** ** request.go: the builder *)

Record Request := mkRequest {
  client : Client;
  headers : gmap string string;
  queryParams : gmap string string;
  pathParams : gmap string string;
  context : Context;
  body : option value
}.

Definition set_headers (q : Request) (h : gmap string string) : Request :=
  mkRequest (client q) h (queryParams q) (pathParams q) (context q) (body q).
Definition set_queryParams (q : Request) (m : gmap string string) : Request :=
  mkRequest (client q) (headers q) m (pathParams q) (context q) (body q).
Definition set_pathParams (q : Request) (m : gmap string string) : Request :=
  mkRequest (client q) (headers q) (queryParams q) m (context q) (body q).
Definition set_body (q : Request) (b : option value) : Request :=
  mkRequest (client q) (headers q) (queryParams q) (pathParams q) (context q) b.

(** Observable input/output of [Do]: a call of the transport, a read of
    the response body ([io.Copy]) and its [Close]. *)
Inductive event : Type :=
| EvSend (hr : http_request)
| EvReadBody
| EvCloseBody.

(** A [*Request] is a location; the world holds the builders and the
    events performed so far. *)
Definition loc := positive.

Record world := mkWorld {
  heap : gmap loc Request;
  events : list event
}.

(** Go execution: state passing, [None] for a panic. *)
Definition M (A : Type) : Type := world -> option (A * world).

Definition ret {A} (a : A) : M A := fun w => Some (a, w).
Definition bind {A B} (m : M A) (k : A -> M B) : M B :=
  fun w => match m w with None => None | Some (a, w') => k a w' end.

#[global] Instance M_ret : MRet M := @ret.
#[global] Instance M_bind : MBind M := fun A B k m => bind m k.

(** [*r]: a nil or dangling pointer panics. *)
Definition load (r : loc) : M Request :=
  fun w => match heap w !! r with
           | Some q => Some (q, w)
           | None => None
           end.

Definition store (r : loc) (q : Request) : M unit :=
  fun w => Some (tt, mkWorld (<[r := q]> (heap w)) (events w)).

Definition emit (e : event) : M unit :=
  fun w => Some (tt, mkWorld (heap w) (events w ++ [e])).

(** The order in which [for k, v := range m] visits a map: Go leaves it
    unspecified, so a run of the program is given one; a legal oracle
    visits every entry exactly once. *)
Record range_oracle := mkRangeOracle {
  range_ss : gmap string string -> list (string * string)
}.

Definition range_ok (ro : range_oracle) : Prop :=
  forall m, range_ss ro m ≡ₚ map_to_list m.

Fixpoint iter {A} (l : list A) (f : A -> M unit) : M unit :=
  match l with
  | [] => ret tt
  | x :: l' => f x ;; iter l' f
  end.

(** [NewRequest] with a non-nil client: a fresh builder. *)
Definition NewRequest (c : Client) : M loc :=
  fun w =>
    let r := fresh (dom (heap w)) in
    Some (r, mkWorld (<[r := mkRequest c ∅ ∅ ∅ Background None]> (heap w))
                     (events w)).

Definition SetQueryParam (r : loc) (name value : string) : M loc :=
  q ← load r ;
  store r (set_queryParams q (<[name := value]> (queryParams q))) ;;
  ret r.

Definition SetQueryParams (ro : range_oracle) (r : loc)
    (params : gmap string string) : M loc :=
  iter (range_ss ro params)
       (fun '(name, value) => _ ← SetQueryParam r name value ; ret tt) ;;
  ret r.

Definition SetPathParam (r : loc) (name value : string) : M loc :=
  q ← load r ;
  store r (set_pathParams q (<[name := value]> (pathParams q))) ;;
  ret r.

Definition SetHeader (r : loc) (name : Header) (value : string) : M loc :=
  q ← load r ;
  store r (set_headers q (<[name := value]> (headers q))) ;;
  ret r.

(** [SetBearerToken]: [fmt.Sprintf("Bearer %s", strings.Trim(token, " "))]. *)
Definition SetBearerToken (r : loc) (token : string) : M loc :=
  SetHeader r HeaderAuthorization ("Bearer " ++ trim_space token) ;;
  ret r.

Definition SetBody (r : loc) (b : option value) : M loc :=
  q ← load r ;
  store r (set_body q b) ;;
  ret r.

(** [SetPathParams] and [SetHeaders]: [range] over the argument map,
    setting each entry in turn. *)
Definition SetPathParams (ro : range_oracle) (r : loc)
    (params : gmap string string) : M loc :=
  iter (range_ss ro params)
       (fun '(name, value) => _ ← SetPathParam r name value ; ret tt) ;;
  ret r.

Definition SetHeaders (ro : range_oracle) (r : loc)
    (hs : gmap string string) : M loc :=
  iter (range_ss ro hs)
       (fun '(name, value) => _ ← SetHeader r name value ; ret tt) ;;
  ret r.

(** [base64.StdEncoding.EncodeToString]: each group of three bytes gives
    four characters of the alphabet A-Z a-z 0-9 + /; a final group of one
    or two bytes is padded with '='. *)
Module Base64.

Definition enc_char (n : nat) : ascii :=
  if Nat.ltb n 26 then ascii_of_nat (65 + n)
  else if Nat.ltb n 52 then ascii_of_nat (71 + n)
  else if Nat.ltb n 62 then ascii_of_nat (n - 4)
  else if Nat.eqb n 62 then "+"%char else "/"%char.

Fixpoint encode (l : list ascii) : string :=
  match l with
  | a :: b :: c :: rest =>
      let x := nat_of_ascii a in
      let y := nat_of_ascii b in
      let z := nat_of_ascii c in
      String (enc_char (x / 4))
        (String (enc_char ((x mod 4) * 16 + y / 16))
          (String (enc_char ((y mod 16) * 4 + z / 64))
            (String (enc_char (z mod 64)) (encode rest))))
  | [a; b] =>
      let x := nat_of_ascii a in
      let y := nat_of_ascii b in
      String (enc_char (x / 4))
        (String (enc_char ((x mod 4) * 16 + y / 16))
          (String (enc_char ((y mod 16) * 4)) "="))
  | [a] =>
      let x := nat_of_ascii a in
      String (enc_char (x / 4))
        (String (enc_char ((x mod 4) * 16)) "==")
  | [] => ""
  end.

Definition EncodeToString (s : string) : string := encode (list_ascii_of_string s).

End Base64.

(** [SetBasicAuth]. *)
Definition SetBasicAuth (r : loc) (userName password : string) : M loc :=
  let user := Base64.EncodeToString (userName ++ ":" ++ password) in
  SetHeader r HeaderAuthorization ("Basic " ++ user) ;;
  ret r.

Definition is_json (m : MIME) : bool :=
  String.eqb m MIMEApplicationJSON || String.eqb m MIMEApplicationJSONCharsetUTF8.
Definition is_xml (m : MIME) : bool :=
  String.eqb m MIMEApplicationXML || String.eqb m MIMEApplicationXMLCharsetUTF8.

(** [Request.marshal]: the builder's headers select the codec. *)
Definition marshal (env : Env) (q : Request) (val : option value) : result string :=
  match val with
  | None => Ok ""
  | Some v =>
      match headers q !! HeaderContentType with
      | None => Err (err_not_defined HeaderContentType)
      | Some mime =>
          let m := NewMIME mime in
          if is_json m then json_marshal env v
          else if is_xml m then xml_marshal env v
          else Err (err_serializing v)
      end
  end.

(** [Request.unmarshall] ([ioutil.ReadAll] of a [bytes.Buffer] cannot
    fail). *)
Definition unmarshall (env : Env) (mime : MIME) (buf : string) (out : sink)
    : option error :=
  if is_json mime then json_unmarshal env buf out
  else if is_xml mime then xml_unmarshal env buf out
  else Some (err_deserializing mime).

(** Lines 137-145 of [Request.Do]: the query suffix, then the path
    parameters, each by [strings.Replace(URL, name, QueryEscape(value), -1)]. *)
Definition query_suffix (ro : range_oracle) (q : Request) : string :=
  let params := List.map (fun '(name, value) =>
                   query_escape name ++ "=" ++ query_escape value)
                 (range_ss ro (queryParams q)) in
  "?" ++ join params "&".

Definition substitute_path (ro : range_oracle) (q : Request) (URL : string) : string :=
  fold_left (fun u '(name, value) => replace_all u name (query_escape value))
            (range_ss ro (pathParams q)) URL.

Definition build_url (ro : range_oracle) (q : Request) (URL : string) : string :=
  substitute_path ro q (URL ++ query_suffix ro q).

(** The loop [for name, value := range r.headers { req.Header.Set(..) }]
    on the fresh, empty header of [http.NewRequest]. *)
Definition copy_headers (ro : range_oracle) (h : gmap string string)
    : gmap string string :=
  fold_left (fun acc '(name, value) => <[canonical_header_key name := value]> acc)
            (range_ss ro h) ∅.

(** [Client.Do]: pure delegation to the transport; the call is an event. *)
Definition Client_Do (c : Client) (req : http_request) : M (result response) :=
  emit (EvSend req) ;; ret (inner_do c req).

(** [Request.Do]; [None] is Go's nil error. *)
Definition Do (env : Env) (ro : range_oracle) (r : loc) (method : Method)
    (URL : string) (out : option sink) : M (option error) :=
  q ← load r ;
  match marshal env q (body q) with
  | Err e => ret (Some e)
  | Ok body =>
      let URL := build_url ro q URL in
      SetHeader r HeaderContentLength (nat_decimal (String.length body)) ;;
      match new_request_check env method URL with
      | Some e => ret (Some e)
      | None =>
          q' ← load r ;
          let req := mkHttpRequest method URL body (context q')
                                   (copy_headers ro (headers q')) in
          res ← Client_Do (client q') req ;
          match res with
          | Err e => ret (Some e)
          | Ok res =>
              let status := NewStatus (res_status res) in
              if negb (IsSuccess status) then ret (Some (err_status status))
              else
                emit EvReadBody ;;
                match res_read_err res with
                | Some e => ret (Some e)
                | None =>
                    emit EvCloseBody ;;
                    match res_close_err res with
                    | Some e => ret (Some e)
                    | None =>
                        match out with
                        | None => ret None
                        | Some o =>
                            let val := header_get (res_header res) HeaderContentType in
                            if String.eqb val "" then ret (Some (err_no_format HeaderContentType))
                            else ret (unmarshall env (NewMIME val) (res_body res) o)
                        end
                    end
                end
          end
      end
  end.

(* ------------------------------------------------------------------ *)
(** ** Concrete collaborators for running the model *)

Module Sample.

(** A JSON encoder for the two value shapes (no escaping needed on the
    sample data) and the XML encoder of [encoding/xml], which rejects
    maps. *)
Definition dq : string := String (ascii_of_nat 34) EmptyString.
Definition quote (s : string) : string := dq ++ s ++ dq.

Definition json_enc (v : value) : result string :=
  match v with
  | VString s => Ok (quote s)
  | VStringMap kvs =>
      Ok ("{" ++ join (List.map (fun '(k, x) => quote k ++ ":" ++ quote x) kvs) "," ++ "}")
  end.

Definition xml_enc (v : value) : result string :=
  match v with
  | VString s => Ok ("<string>" ++ s ++ "</string>")
  | VStringMap _ => Err "xml: unsupported type: map[string]string"
  end.

Definition env : Env :=
  mkEnv json_enc xml_enc (fun _ _ => None) (fun _ _ => None) (fun _ _ => None).

(** Go's map order taken as stdpp's enumeration, and its reverse. *)
Definition order : range_oracle := mkRangeOracle map_to_list.
Definition rev_order : range_oracle := mkRangeOracle (fun m => rev (map_to_list m)).

(** A server answering every request with [status], a JSON content type
    and a small body. *)
Definition server (status : Z) : Client :=
  mkClient (fun _ => Ok (mkResponse status
                           {[ "Content-Type" := MIMEApplicationJSONCharsetUTF8 ]}
                           ("{" ++ quote "foo" ++ ":" ++ quote "bar" ++ "}") None None)).

Definition w0 : world := mkWorld ∅ [].

(** Build a request on [c], configure it with [cfg], and run [Do]. *)
Definition run (c : Client) (ro : range_oracle) (cfg : loc -> M loc)
    (method : Method) (URL : string) (out : option sink)
    : option (option error * world) :=
  (r ← NewRequest c ; r ← cfg r ; Do env ro r method URL out) w0.

End Sample.

Definition sample_events (o : option (option error * world)) : list event :=
  match o with Some (_, w) => events w | None => [] end.
Definition sample_result (o : option (option error * world)) : option (option error) :=
  match o with Some (e, _) => Some e | None => None end.

Example sample_get :
  sample_result (Sample.run (Sample.server 200) Sample.order ret MethodGet
                   "http://host/items" (Some 1%positive)) = Some None.
Proof. vm_compute. reflexivity. Qed.

Example sample_post :
  sample_result (Sample.run (Sample.server 201) Sample.order
     (fun r => r ← SetHeader r HeaderContentType MIMEApplicationJSONCharsetUTF8 ;
               SetBody r (Some (VStringMap [("foo", "bar")])))
     MethodPost "http://host/items" (Some 1%positive)) = Some None.
Proof. vm_compute. reflexivity. Qed.

(* ================================================================== *)
(** * Properties of the builder and of [Do] *)

Ltac unfold_go :=
  cbv [mbind mret M_bind M_ret bind ret load store emit SetHeader Client_Do].

Ltac close_shape Hm :=
  eexists _, _, _; split; [reflexivity|]; cbn [heap events];
  split; [rewrite <- ?app_assoc; first [reflexivity | symmetry; apply app_nil_r] |];
  split;
  [ let hr := fresh "hr" in let Hin := fresh "Hin" in
    intros hr Hin; cbn in Hin;
    repeat destruct Hin as [Hin|Hin]; try discriminate; try contradiction;
    inversion Hin; reflexivity
  | split;
    [ let b := fresh "b" in let Hb := fresh "Hb" in
      intros b Hb; try rewrite Hm in Hb; injection Hb as <-; reflexivity
    | let e := fresh "e" in let He := fresh "He" in
      intros e He; try rewrite Hm in He; discriminate ] ].

(** Running [Do] on a live builder never panics; it changes the builder
    only by the Content-Length header, and only once marshaling has
    succeeded; the events it adds are the transport call for the request
    it built, followed by body operations. *)
Lemma Do_shape (env : Env) (ro : range_oracle) (r : loc) (method : Method)
    (URL : string) (out : option sink) (w : world) (q : Request) :
  heap w !! r = Some q ->
  exists res w' evs,
    Do env ro r method URL out w = Some (res, w') /\
    events w' = app (events w) evs /\
    (forall hr, In (EvSend hr) evs -> hr_url hr = build_url ro q URL) /\
    (forall b, marshal env q (body q) = Ok b ->
       heap w' = <[r := set_headers q (<[HeaderContentLength :=
                      nat_decimal (String.length b)]> (headers q))]> (heap w)) /\
    (forall e, marshal env q (body q) = Err e -> heap w' = heap w /\ evs = []).
Proof.
  intros Hr. unfold Do. unfold_go. rewrite Hr.
  destruct (marshal env q (body q)) as [b|e] eqn:Hm.
  - unfold_go. rewrite Hr. cbn [heap events].
    destruct (new_request_check env method (build_url ro q URL)).
    { close_shape Hm. }
    cbn [heap events]. rewrite lookup_insert_eq.
    cbn [client context headers set_headers].
    destruct (inner_do (client q) _) as [res|e]; [|close_shape Hm].
    destruct (negb (IsSuccess _)); [close_shape Hm|].
    destruct (res_read_err res); [close_shape Hm|].
    destruct (res_close_err res); [close_shape Hm|].
    destruct out; [|close_shape Hm].
    destruct (String.eqb _ _); close_shape Hm.
  - exists (Some e), w, []. repeat split; auto using app_nil_r.
    + intros hr [].
    + intros ? Hb. congruence.
Qed.

(** Small facts on strings ([String.append] does not simplify by [simpl]
    under stdpp). *)
Lemma append_cons (c : ascii) (s t : string) : String c s ++ t = String c (s ++ t).
Proof. reflexivity. Qed.

Lemma append_empty_l (s : string) : "" ++ s = s.
Proof. reflexivity. Qed.

Lemma append_nil_r (s : string) : s ++ "" = s.
Proof. induction s as [|c s IH]; [reflexivity|rewrite append_cons, IH; reflexivity]. Qed.

Lemma append_assoc (a b c : string) : (a ++ b) ++ c = a ++ (b ++ c).
Proof. induction a as [|x a IH]; [reflexivity|rewrite !append_cons, IH; reflexivity]. Qed.

Lemma range_empty (ro : range_oracle) :
  range_ok ro -> range_ss ro ∅ = [].
Proof.
  intros Hro. specialize (Hro ∅). rewrite map_to_list_empty in Hro.
  now apply Permutation_nil.
Qed.

(** ** Status *)

(** C6: [Status(s).IsSuccess()] holds exactly for the codes in [200, 300). *)
Theorem IsSuccess_iff (s : Status) :
  IsSuccess s = true <-> (200 <= s < 300)%Z.
Proof.
  unfold IsSuccess, Status_Int.
  rewrite andb_true_iff, Z.leb_le, Z.ltb_lt. reflexivity.
Qed.

(** ** Marshaling *)

(** C7: a builder with no body marshals to the empty byte sequence,
    whatever its headers, in particular with no Content-Type. *)
Theorem marshal_no_body (env : Env) (q : Request) :
  body q = None -> marshal env q (body q) = Ok "".
Proof. intros Hb. unfold marshal. now rewrite Hb. Qed.

Lemma marshal_no_body_witness :
  body (mkRequest (Sample.server 200) ∅ ∅ ∅ Background None) = None /\
  marshal Sample.env (mkRequest (Sample.server 200) ∅ ∅ ∅ Background None) None
  = Ok "".
Proof.
  split; [reflexivity|].
  exact (marshal_no_body Sample.env (mkRequest (Sample.server 200) ∅ ∅ ∅ Background None)
           eq_refl).
Defined.

(** C2: a builder with a body and no Content-Type header makes [Do]
    return the error "Content-Type is not defined" with the world left as
    it was: no event (no transport call, no byte sent) and the builder
    untouched. *)
Theorem Do_body_without_content_type (env : Env) (ro : range_oracle) (r : loc)
    (method : Method) (URL : string) (out : option sink) (w : world)
    (q : Request) (v : value) :
  heap w !! r = Some q ->
  body q = Some v ->
  headers q !! HeaderContentType = None ->
  Do env ro r method URL out w = Some (Some (err_not_defined HeaderContentType), w).
Proof.
  intros Hr Hb Hh. unfold Do. unfold_go. rewrite Hr.
  unfold marshal. now rewrite Hb, Hh.
Qed.

Definition body_only_world : world :=
  mkWorld {[ 1%positive := mkRequest (Sample.server 200) ∅ ∅ ∅ Background
                             (Some (VStringMap [("foo", "bar")])) ]} [].

Lemma Do_body_without_content_type_witness :
  Do Sample.env Sample.order 1%positive MethodPost "http://host/items" None
     body_only_world
  = Some (Some "Content-Type is not defined", body_only_world).
Proof.
  exact (Do_body_without_content_type Sample.env Sample.order 1%positive MethodPost
           "http://host/items" None body_only_world
           (mkRequest (Sample.server 200) ∅ ∅ ∅ Background
              (Some (VStringMap [("foo", "bar")])))
           (VStringMap [("foo", "bar")]) eq_refl eq_refl eq_refl).
Defined.

(** C3 (the failing input): a JSON-encodable map body with Content-Type
    "text/plain".  [marshal] formats the body, not the content type, into
    its error, so the message [Do] returns does not name "text/plain". *)
Theorem Do_unsupported_format_message :
  sample_result
    (Sample.run (Sample.server 200) Sample.order
       (fun r => r ← SetHeader r HeaderContentType MIMETextPlain ;
                 SetBody r (Some (VStringMap [("foo", "bar")])))
       MethodPost "http://host/items" None)
  = Some (Some "serializing format 'map[foo:bar]' is not supported") /\
  contains "serializing format 'map[foo:bar]' is not supported" MIMETextPlain = false.
Proof. split; vm_compute; reflexivity. Qed.

(** ** Status handling *)

Definition is_body_event (e : event) : bool :=
  match e with EvSend _ => false | EvReadBody | EvCloseBody => true end.

(** A non-success status returns at once: the body is neither read nor
    closed. *)
Lemma Do_status_error_skips_body (env : Env) (ro : range_oracle) (r : loc)
    (method : Method) (URL : string) (out : option sink) (w : world)
    (q : Request) (b : string) (res : response) :
  heap w !! r = Some q ->
  marshal env q (body q) = Ok b ->
  new_request_check env method (build_url ro q URL) = None ->
  (forall hr, inner_do (client q) hr = Ok res) ->
  IsSuccess (res_status res) = false ->
  exists w' hr,
    Do env ro r method URL out w = Some (Some (err_status (res_status res)), w') /\
    events w' = app (events w) [EvSend hr].
Proof.
  intros Hr Hm Hn Ht Hs. unfold Do. unfold_go. rewrite Hr, Hm.
  unfold_go. rewrite Hr. cbn [heap events]. rewrite Hn.
  cbn [heap events]. rewrite lookup_insert_eq.
  cbn [client context headers set_headers]. rewrite Ht.
  unfold NewStatus. rewrite Hs. cbn. eauto.
Qed.

(** C1 (the failing input): a GET answered with 404.  [Do] returns the
    status error, but the response body is never read nor closed: the only
    event is the transport call, while a 200 answer reads and closes the
    body. *)
Theorem Do_404_body_not_released :
  let o := Sample.run (Sample.server 404) Sample.order ret MethodGet
             "http://host/items" None in
  let ok := Sample.run (Sample.server 200) Sample.order ret MethodGet
              "http://host/items" None in
  sample_result o = Some (Some "http request failed, got status: 404: Not Found") /\
  length (sample_events o) = 1 /\
  List.filter is_body_event (sample_events o) = [] /\
  List.filter is_body_event (sample_events ok) = [EvReadBody; EvCloseBody].
Proof. vm_compute. repeat split. Qed.

(** ** What [Do] does to the builder *)

Definition builder_header (o : option (option error * world)) (r : loc) (h : Header)
    : option string :=
  match o with
  | Some (_, w) => match heap w !! r with Some q => headers q !! h | None => None end
  | None => None
  end.

(** C9 (amended): [Do] writes the Content-Length header, the decimal
    byte length of the marshaled body, into the builder's own header map
    when marshaling succeeds, and leaves the builder as it was when
    marshaling fails; no other field of the builder changes. *)
Theorem Do_builder_frame (env : Env) (ro : range_oracle) (r : loc)
    (method : Method) (URL : string) (out : option sink) (w : world) (q : Request) :
  heap w !! r = Some q ->
  exists res w' q',
    Do env ro r method URL out w = Some (res, w') /\
    heap w' = <[r := q']> (heap w) /\
    client q' = client q /\ queryParams q' = queryParams q /\
    pathParams q' = pathParams q /\ context q' = context q /\ body q' = body q /\
    headers q' = match marshal env q (body q) with
                 | Ok b => <[HeaderContentLength := nat_decimal (String.length b)]> (headers q)
                 | Err _ => headers q
                 end.
Proof.
  intros Hr.
  destruct (Do_shape env ro r method URL out w q Hr)
    as (res & w' & evs & Hdo & _ & _ & Hok & Herr).
  destruct (marshal env q (body q)) as [b|e] eqn:Hm.
  - exists res, w', (set_headers q (<[HeaderContentLength :=
                                      nat_decimal (String.length b)]> (headers q))).
    repeat split; auto.
  - exists res, w', q. destruct (Herr e eq_refl) as [Hh _].
    repeat split; auto. rewrite Hh. symmetry. now apply insert_id.
Qed.

Lemma Do_builder_frame_witness :
  exists res w' q',
    Do Sample.env Sample.order 1%positive MethodPost "http://host/items" None
       body_only_world = Some (res, w') /\
    heap w' = <[1%positive := q']> (heap body_only_world) /\
    client q' = client (mkRequest (Sample.server 200) ∅ ∅ ∅ Background
                          (Some (VStringMap [("foo", "bar")]))) /\
    queryParams q' = ∅ /\ pathParams q' = ∅ /\ context q' = Background /\
    body q' = Some (VStringMap [("foo", "bar")]) /\
    headers q' = ∅.
Proof.
  exact (Do_builder_frame Sample.env Sample.order 1%positive MethodPost
           "http://host/items" None body_only_world
           (mkRequest (Sample.server 200) ∅ ∅ ∅ Background
              (Some (VStringMap [("foo", "bar")]))) eq_refl).
Defined.

(** C9 (counterexample): a builder with a body but no Content-Type; [Do]
    fails in [marshal] and the builder gets no Content-Length header. *)
Theorem Do_marshal_error_no_content_length :
  let o := Sample.run (Sample.server 200) Sample.order
             (fun r => SetBody r (Some (VString "x")))
             MethodPost "http://host/items" None in
  sample_result o = Some (Some "Content-Type is not defined") /\
  builder_header o 1%positive HeaderContentLength = None.
Proof. vm_compute. split; reflexivity. Qed.

(** A builder with a JSON body, a JSON content type, one query parameter
    and one path parameter ":id". *)
Definition path_request : Request :=
  mkRequest (Sample.server 200) {[ HeaderContentType := MIMEApplicationJSON ]}
            {[ "q" := "a b" ]} {[ ":id" := "4/2" ]} Background
            (Some (VStringMap [("foo", "bar")])).

Definition path_world : world := mkWorld {[ 1%positive := path_request ]} [].

(** ** The URL [Do] builds *)

Definition sent_urls (evs : list event) : list string :=
  flat_map (fun e => match e with EvSend hr => [hr_url hr] | _ => [] end) evs.

(** C10 (amended): the URL handed to the transport is the target URL
    followed by '?' and the joined query parameters, with the path
    parameters substituted afterwards; with no query parameter the suffix
    is a bare '?', which ends the final URL when there is no path
    parameter either. *)
Theorem Do_appends_query_suffix (env : Env) (ro : range_oracle) (r : loc)
    (method : Method) (URL : string) (out : option sink) (w : world) (q : Request) :
  range_ok ro ->
  heap w !! r = Some q ->
  exists res w' evs,
    Do env ro r method URL out w = Some (res, w') /\
    events w' = app (events w) evs /\
    forall hr, In (EvSend hr) evs ->
      hr_url hr = substitute_path ro q
                    (URL ++ "?" ++ join (List.map (fun '(name, value) =>
                       query_escape name ++ "=" ++ query_escape value)
                       (range_ss ro (queryParams q))) "&") /\
      (queryParams q = ∅ -> hr_url hr = substitute_path ro q (URL ++ "?")) /\
      (queryParams q = ∅ -> pathParams q = ∅ -> hr_url hr = URL ++ "?").
Proof.
  intros Hro Hr.
  destruct (Do_shape env ro r method URL out w q Hr)
    as (res & w' & evs & Hdo & Hev & Hurl & _ & _).
  exists res, w', evs. split; [exact Hdo|]. split; [exact Hev|].
  intros hr Hin. rewrite (Hurl hr Hin). unfold build_url, query_suffix.
  split; [reflexivity|]. split.
  - intros Hq. rewrite Hq, (range_empty ro Hro). cbn [List.map join].
    now rewrite append_nil_r.
  - intros Hq Hp. unfold substitute_path. rewrite Hq, Hp, (range_empty ro Hro).
    cbn [List.map join fold_left]. now rewrite append_nil_r.
Qed.

Lemma range_ok_order : range_ok Sample.order.
Proof. intros m. reflexivity. Qed.

Lemma Do_appends_query_suffix_witness :
  exists res w' evs,
    Do Sample.env Sample.order 1%positive MethodGet "http://h/users/:id" None
       path_world = Some (res, w') /\
    events w' = app (events path_world) evs.
Proof.
  destruct (Do_appends_query_suffix Sample.env Sample.order 1%positive MethodGet
              "http://h/users/:id" None path_world path_request
              range_ok_order eq_refl) as (res & w' & evs & Hdo & Hev & _).
  exists res, w', evs. split; [exact Hdo | exact Hev].
Defined.

(** C10 (counterexample): no query parameter, but a path parameter named
    "?": the '?' that [Do] appended is substituted away. *)
Theorem Do_question_mark_substituted :
  sent_urls (sample_events
    (Sample.run (Sample.server 200) Sample.order
       (fun r => SetPathParam r "?" "x") MethodGet "http://h/a" None))
  = ["http://h/ax"].
Proof. vm_compute. reflexivity. Qed.

(** *** [strings.Replace] with a non-empty pattern cuts the string at every
    occurrence of the pattern and joins the pieces with the replacement. *)

Ltac conj_split := repeat match goal with |- _ /\ _ => split end.

Lemma length_append (a b : string) :
  String.length (a ++ b) = String.length a + String.length b.
Proof.
  induction a as [|c a IH]; [reflexivity|].
  rewrite append_cons. cbn [String.length]. now rewrite IH.
Qed.

Lemma has_prefix_app (p s t : string) :
  has_prefix p s = true -> has_prefix p (s ++ t) = true.
Proof.
  revert s. induction p as [|a p IH]; intros s H; [reflexivity|].
  destruct s as [|b s]; [discriminate|].
  rewrite append_cons. cbn [has_prefix] in *.
  apply andb_true_iff in H as [Hab Hp]. now rewrite Hab, (IH s Hp).
Qed.

Lemma has_prefix_split (p s : string) :
  has_prefix p s = true -> exists t, s = p ++ t.
Proof.
  revert s. induction p as [|a p IH]; intros s H; [now exists s|].
  destruct s as [|b s]; [discriminate|].
  cbn [has_prefix] in H. apply andb_true_iff in H as [Hab Hp].
  apply Ascii.eqb_eq in Hab as ->. destruct (IH s Hp) as [t ->].
  exists t. reflexivity.
Qed.

Lemma substring_all (t : string) (m : nat) :
  String.length t <= m -> substring 0 m t = t.
Proof.
  revert m. induction t as [|c t IH]; intros m Hm.
  - destruct m; reflexivity.
  - destruct m as [|m]; cbn [String.length] in Hm; [lia|].
    cbn. f_equal. apply IH. lia.
Qed.

Lemma substring_suffix (p t : string) (m : nat) :
  String.length t <= m -> substring (String.length p) m (p ++ t) = t.
Proof.
  intros Hm. induction p as [|c p IH]; [now apply substring_all|].
  rewrite append_cons. cbn [String.length substring]. exact IH.
Qed.

Lemma contains_empty (old : string) : old <> "" -> contains "" old = false.
Proof. intros H. destruct old; [congruence|reflexivity]. Qed.

Lemma join_char (c : ascii) (p : string) (ps : list string) (sep : string) :
  join (String c p :: ps) sep = String c (join (p :: ps) sep).
Proof. destruct ps; reflexivity. Qed.

Lemma join_prefix (p : string) (ps : list string) (sep : string) :
  exists x, join (p :: ps) sep = p ++ x.
Proof.
  destruct ps as [|p' ps]; [exists ""; symmetry; apply append_nil_r|].
  eexists. reflexivity.
Qed.

Lemma join_empty_head (ps : list string) (sep : string) :
  ps <> [] -> join ("" :: ps) sep = sep ++ join ps sep.
Proof. destruct ps; [congruence|reflexivity]. Qed.

(** [old] without its last byte: a string with this prefix and one byte
    more may still start an occurrence of [old]. *)
Fixpoint init_str (s : string) : string :=
  match s with
  | EmptyString => EmptyString
  | String _ EmptyString => EmptyString
  | String c s' => String c (init_str s')
  end.

(** The loop body of [Do]'s path substitution. *)
Definition path_step (u : string) (nv : string * string) : string :=
  let '(name, value) := nv in replace_all u name (query_escape value).

Lemma init_str_split (n : string) :
  n <> "" -> exists d, n = init_str n ++ String d "".
Proof.
  induction n as [|c n IH]; intros Hn; [congruence|].
  destruct n as [|c' n].
  - exists c. reflexivity.
  - destruct IH as [d Hd]; [discriminate|]. exists d.
    change (init_str (String c (String c' n))) with (String c (init_str (String c' n))).
    rewrite append_cons. now rewrite <- Hd.
Qed.

Lemma has_prefix_length (p s : string) :
  has_prefix p s = true -> String.length p <= String.length s.
Proof.
  revert s. induction p as [|a p IH]; intros s H; cbn [String.length]; [lia|].
  destruct s as [|b s]; [discriminate|]. cbn [has_prefix] in H.
  apply andb_true_iff in H as [_ H]. cbn [String.length]. specialize (IH s H). lia.
Qed.

Lemma contains_length (s n : string) :
  n <> "" -> contains s n = true -> String.length n <= String.length s.
Proof.
  intros Hn. induction s as [|c s IH]; intros H.
  - destruct n; [congruence|discriminate].
  - cbn [contains] in H. apply orb_true_iff in H as [H|H].
    + now apply has_prefix_length.
    + specialize (IH H). cbn [String.length]. lia.
Qed.

Lemma contains_init (n : string) : n <> "" -> contains (init_str n) n = false.
Proof.
  intros Hn. destruct (contains (init_str n) n) eqn:Hc; [|reflexivity].
  apply contains_length in Hc; [|exact Hn]. destruct (init_str_split n Hn) as [d Hd].
  assert (E : String.length n = String.length (init_str n ++ String d "")) by now rewrite <- Hd.
  rewrite length_append in E. cbn [String.length] in E. lia.
Qed.

Lemma removelast_cons {A} (x : A) (l : list A) :
  l <> [] -> removelast (x :: l) = x :: removelast l.
Proof. destruct l; [congruence|reflexivity]. Qed.

(** [strings.Replace] with a non-empty [old] cuts [s] at the leftmost
    occurrences of [old], scanning from the left: no piece contains [old],
    and no occurrence starts inside a piece before the cut that follows it
    (every piece but the last, followed by [old] less its last byte, has
    no occurrence); the result joins the pieces with [new]. *)
Lemma replace_ne_split (old new : string) :
  old <> "" ->
  forall fuel s, String.length s <= fuel ->
  exists pieces, pieces <> [] /\ s = join pieces old /\
    Forall (fun p => contains p old = false) pieces /\
    Forall (fun p => contains (p ++ init_str old) old = false) (removelast pieces) /\
    replace_ne fuel s old new = join pieces new.
Proof.
  intros Hold fuel. induction fuel as [|f IH]; intros s Hs.
  - destruct s; cbn [String.length] in Hs; [|lia].
    exists [""]. conj_split; try solve [reflexivity | congruence | constructor].
    constructor; [now apply contains_empty | constructor].
  - destruct s as [|c s'].
    { exists [""]. conj_split; try solve [reflexivity | congruence | constructor].
      constructor; [now apply contains_empty | constructor]. }
    cbn [replace_ne]. destruct (has_prefix old (String c s')) eqn:Hp.
    + destruct (has_prefix_split _ _ Hp) as [t Ht].
      rewrite Ht, length_append, substring_suffix by lia.
      assert (Hlt : String.length t <= f).
      { assert (String.length (String c s') = String.length (old ++ t)) as E
          by now rewrite Ht.
        rewrite length_append in E. cbn [String.length] in Hs, E.
        destruct old; [congruence|]. cbn [String.length] in E. lia. }
      destruct (IH t Hlt) as (ps & Hne & Hj & Hf & Hl & Hrep).
      exists ("" :: ps). conj_split; [congruence| | | |].
      * rewrite join_empty_head by exact Hne. now rewrite <- Hj.
      * constructor; [now apply contains_empty | exact Hf].
      * rewrite removelast_cons by exact Hne.
        constructor; [rewrite append_empty_l; now apply contains_init | exact Hl].
      * rewrite join_empty_head by exact Hne. now rewrite Hrep.
    + cbn [String.length] in Hs.
      destruct (IH s' ltac:(lia)) as (ps & Hne & Hj & Hf & Hl & Hrep).
      destruct ps as [|p0 ps]; [congruence|].
      apply Forall_cons in Hf as [Hp0 Hps].
      exists (String c p0 :: ps). conj_split; [congruence| | | |].
      * now rewrite join_char, <- Hj.
      * constructor; [|exact Hps]. cbn [contains]. rewrite Hp0, orb_false_r.
        destruct (has_prefix old (String c p0)) eqn:Hq; [|reflexivity].
        destruct (join_prefix p0 ps old) as [x Hx].
        rewrite Hj, Hx in Hp. rewrite <- append_cons in Hp.
        now rewrite (has_prefix_app _ _ x Hq) in Hp.
      * destruct ps as [|p1 ps]; [constructor|].
        rewrite removelast_cons in Hl |- * by discriminate.
        apply Forall_cons in Hl as [Hl0 Hls]. constructor; [|exact Hls].
        rewrite append_cons. cbn [contains]. rewrite Hl0, orb_false_r.
        destruct (has_prefix old (String c (p0 ++ init_str old))) eqn:Hq; [|reflexivity].
        destruct (init_str_split old Hold) as [d Hd].
        assert (Hs' : String c s' =
                      String c (p0 ++ init_str old) ++ (String d "" ++ join (p1 :: ps) old)).
        { rewrite Hj. change (join (p0 :: p1 :: ps) old)
            with (p0 ++ old ++ join (p1 :: ps) old).
          rewrite !append_cons, !append_assoc. f_equal. f_equal.
          rewrite Hd at 1. rewrite append_assoc, append_cons. reflexivity. }
        rewrite Hs' in Hp. now rewrite (has_prefix_app _ _ _ Hq) in Hp.
      * rewrite Hrep. symmetry. apply join_char.
Qed.

Lemma replace_all_split (s old new : string) :
  old <> "" ->
  exists pieces, s = join pieces old /\
    Forall (fun p => contains p old = false) pieces /\
    Forall (fun p => contains (p ++ init_str old) old = false) (removelast pieces) /\
    replace_all s old new = join pieces new.
Proof.
  intros Hold.
  destruct (replace_ne_split old new Hold (String.length s) s (le_n _))
    as (ps & _ & Hj & Hf & Hl & Hrep).
  unfold replace_all. destruct (String.eqb old new) eqn:Heq.
  - apply String.eqb_eq in Heq. subst new. eauto.
  - destruct old as [|a o]; [congruence|].
    destruct (contains s (String a o)) eqn:Hc; cbn [negb]; [eauto|].
    exists [s]. conj_split; [reflexivity| |constructor|reflexivity].
    constructor; [exact Hc | constructor].
Qed.

Lemma range_single (ro : range_oracle) (n v : string) :
  range_ok ro -> range_ss ro {[n := v]} = [(n, v)].
Proof.
  intros Hro. specialize (Hro {[n := v]}). rewrite map_to_list_singleton in Hro.
  now apply Permutation_singleton_r.
Qed.

Lemma fold_path_step_app (pre : list (string * string)) (n v u : string) :
  fold_left path_step (app pre [(n, v)]) u =
  replace_all (fold_left path_step pre u) n (query_escape v).
Proof. now rewrite fold_left_app. Qed.

(** C4 (amended): [Do] substitutes the path parameters into the URL
    after the query suffix has been appended, one after the other in the
    map's iteration order (a permutation of its entries), each by
    [strings.Replace] of its name with its escaped value in the URL as it
    stands after the earlier substitutions, text they inserted included.
    Each step with a non-empty name [n] cuts that URL at the leftmost
    non-overlapping occurrences of [n] and joins the pieces with the
    escaped value.  With a single path parameter, this is the URL plus its
    suffix cut at every occurrence of the name. *)
Theorem Do_path_param_substitution (env : Env) (ro : range_oracle) (r : loc)
    (method : Method) (URL : string) (out : option sink) (w : world) (q : Request) :
  range_ok ro ->
  heap w !! r = Some q ->
  exists res w' evs,
    Do env ro r method URL out w = Some (res, w') /\
    events w' = app (events w) evs /\
    forall hr, In (EvSend hr) evs ->
      let ps := range_ss ro (pathParams q) in
      let u0 := URL ++ query_suffix ro q in
      ps ≡ₚ map_to_list (pathParams q) /\
      hr_url hr = fold_left path_step ps u0 /\
      (forall pre n v post, ps = app pre ((n, v) :: post) -> n <> "" ->
         exists pieces,
           fold_left path_step pre u0 = join pieces n /\
           Forall (fun p => contains p n = false) pieces /\
           Forall (fun p => contains (p ++ init_str n) n = false) (removelast pieces) /\
           fold_left path_step (app pre [(n, v)]) u0 = join pieces (query_escape v)) /\
      (forall n v, pathParams q = {[n := v]} -> n <> "" ->
         hr_url hr = replace_all u0 n (query_escape v) /\
         exists pieces,
           u0 = join pieces n /\
           Forall (fun p => contains p n = false) pieces /\
           Forall (fun p => contains (p ++ init_str n) n = false) (removelast pieces) /\
           hr_url hr = join pieces (query_escape v)).
Proof.
  intros Hro Hr.
  destruct (Do_shape env ro r method URL out w q Hr)
    as (res & w' & evs & Hdo & Hev & Hurl & _ & _).
  exists res, w', evs. split; [exact Hdo|]. split; [exact Hev|].
  intros hr Hin. cbv zeta.
  assert (Hu : hr_url hr = fold_left path_step (range_ss ro (pathParams q))
                             (URL ++ query_suffix ro q)).
  { rewrite (Hurl hr Hin). reflexivity. }
  split; [apply Hro|]. split; [exact Hu|]. split.
  - intros pre n v post _ Hn. rewrite fold_path_step_app.
    exact (replace_all_split (fold_left path_step pre (URL ++ query_suffix ro q))
             n (query_escape v) Hn).
  - intros n v Hp Hn. rewrite Hu, Hp, (range_single ro n v Hro). cbn [fold_left path_step].
    split; [reflexivity|].
    exact (replace_all_split (URL ++ query_suffix ro q) n (query_escape v) Hn).
Qed.

Lemma Do_path_param_substitution_witness :
  exists res w' evs,
    Do Sample.env Sample.order 1%positive MethodGet "http://h/users/:id/:id" None
       path_world = Some (res, w') /\
    events w' = app (events path_world) evs.
Proof.
  destruct (Do_path_param_substitution Sample.env Sample.order 1%positive MethodGet
              "http://h/users/:id/:id" None path_world path_request
              range_ok_order eq_refl) as (res & w' & evs & Hdo & Hev & _).
  exists res, w', evs. split; [exact Hdo | exact Hev].
Defined.

Example path_world_url :
  sent_urls (sample_events (Do Sample.env Sample.order 1%positive MethodGet
                              "http://h/users/:id/:id" None path_world))
  = ["http://h/users/4%2F2/4%2F2?q=a+b"].
Proof. vm_compute. reflexivity. Qed.

(** C4 (counterexample): path parameters a -> "b" and b -> "c" on the
    URL "a", visited in the order a, b (a legal Go map order).  The sent
    URL is "c?": the second substitution rewrote the text the first one
    inserted, so the result is not the URL with "a" replaced by "b". *)
Theorem Do_path_params_interfere :
  sent_urls (sample_events
    (Sample.run (Sample.server 200) Sample.order
       (fun r => r ← SetPathParam r "a" "b" ; SetPathParam r "b" "c")
       MethodGet "a" None)) = ["c?"] /\
  map_to_list ({[ "a" := "b"; "b" := "c" ]} : gmap string string)
    = [("a", "b"); ("b", "c")] /\
  replace_all "a?" "a" (query_escape "b") = "b?" /\
  replace_all "a" "a" (query_escape "b") = "b".
Proof. vm_compute. repeat split. Qed.

(** ** Query parameters *)

Definition insert_all (l : list (string * string)) (m : gmap string string)
    : gmap string string :=
  fold_left (fun acc '(k, x) => <[k := x]> acc) l m.

Lemma SetQueryParam_run (r : loc) (name value : string) (w : world) (q : Request) :
  heap w !! r = Some q ->
  SetQueryParam r name value w =
  Some (r, mkWorld (<[r := set_queryParams q (<[name := value]> (queryParams q))]> (heap w))
                   (events w)).
Proof. intros Hr. unfold SetQueryParam. unfold_go. now rewrite Hr. Qed.

Lemma iter_SetQueryParam (r : loc) (l : list (string * string)) :
  forall (w : world) (q : Request), heap w !! r = Some q ->
  iter l (fun '(name, value) => _ ← SetQueryParam r name value ; ret tt) w =
  Some (tt, mkWorld (<[r := set_queryParams q (insert_all l (queryParams q))]> (heap w))
                    (events w)).
Proof.
  induction l as [|[k x] l IH]; intros w q Hr.
  - cbn. unfold ret. f_equal. f_equal. destruct w as [h e]. cbn in *. f_equal.
    rewrite insert_id; [reflexivity|]. rewrite Hr. now destruct q.
  - cbn [iter]. unfold_go. cbv [SetQueryParam]. unfold_go. rewrite Hr.
    cbn [heap events].
    rewrite (IH _ (set_queryParams q (<[k := x]> (queryParams q))))
      by (cbn; apply lookup_insert_eq).
    cbn [heap events]. now rewrite insert_insert_eq.
Qed.

Lemma insert_all_union (l : list (string * string)) :
  NoDup l.*1 -> forall m, insert_all l m = list_to_map l ∪ m.
Proof.
  induction l as [|[k x] l IH]; intros Hnd m.
  - cbn. now rewrite map_empty_union.
  - cbn [fmap list_fmap fst] in Hnd. apply NoDup_cons in Hnd as [Hk Hnd].
    cbn [insert_all fold_left]. fold (insert_all l (<[k := x]> m)).
    rewrite IH by exact Hnd. cbn [list_to_map foldr].
    rewrite <- insert_union_r by now apply not_elem_of_list_to_map_1.
    now rewrite insert_union_l.
Qed.

Lemma insert_all_range (ro : range_oracle) (params m : gmap string string) :
  range_ok ro -> insert_all (range_ss ro params) m = params ∪ m.
Proof.
  intros Hro. assert (Hnd : NoDup (range_ss ro params).*1).
  { rewrite (Hro params). apply NoDup_fst_map_to_list. }
  rewrite insert_all_union by exact Hnd.
  rewrite (list_to_map_proper _ _ Hnd (Hro params)).
  now rewrite list_to_map_to_list.
Qed.

Lemma single_entry (m : gmap string string) (n v : string) :
  m !! n = Some v -> forall x, (n, x) ∈ map_to_list m <-> x = v.
Proof.
  intros Hm x. rewrite elem_of_map_to_list, Hm. split; [congruence|now intros ->].
Qed.

(** C5: after [SetQueryParam(n, v1)] and [SetQueryParam(n, v2)] the
    builder (the same one is returned) holds exactly one entry for [n],
    with value [v2]; [SetQueryParams] overwrites the same way: the
    parameters it is given take precedence over those already set,
    whatever order Go visits them in. *)
Theorem SetQueryParam_overwrites (ro : range_oracle) (r : loc) (w : world)
    (q : Request) (n v1 v2 : string) (params : gmap string string) :
  range_ok ro ->
  heap w !! r = Some q ->
  (exists w',
     (r1 ← SetQueryParam r n v1 ; SetQueryParam r1 n v2) w = Some (r, w') /\
     exists q', heap w' !! r = Some q' /\
       queryParams q' = <[n := v2]> (queryParams q) /\
       forall x, (n, x) ∈ map_to_list (queryParams q') <-> x = v2) /\
  (params !! n = Some v2 ->
   exists w',
     (r1 ← SetQueryParam r n v1 ; SetQueryParams ro r1 params) w = Some (r, w') /\
     exists q', heap w' !! r = Some q' /\
       queryParams q' = params ∪ <[n := v1]> (queryParams q) /\
       forall x, (n, x) ∈ map_to_list (queryParams q') <-> x = v2).
Proof.
  intros Hro Hr. split.
  - unfold_go. rewrite SetQueryParam_run with (q := q) by exact Hr.
    rewrite SetQueryParam_run
      with (q := set_queryParams q (<[n := v1]> (queryParams q)))
      by (cbn; apply lookup_insert_eq).
    eexists. split; [reflexivity|]. cbn [heap].
    eexists. rewrite lookup_insert_eq. split; [reflexivity|].
    cbn [queryParams set_queryParams]. rewrite insert_insert_eq.
    split; [reflexivity|]. apply single_entry, lookup_insert_eq.
  - intros Hp. unfold_go. rewrite SetQueryParam_run with (q := q) by exact Hr.
    unfold SetQueryParams. unfold_go.
    rewrite (iter_SetQueryParam r _ _ (set_queryParams q (<[n := v1]> (queryParams q))))
      by (cbn; apply lookup_insert_eq).
    eexists. split; [reflexivity|]. cbn [heap].
    eexists. rewrite lookup_insert_eq. split; [reflexivity|].
    cbn [queryParams set_queryParams]. rewrite insert_all_range by exact Hro.
    split; [reflexivity|]. apply single_entry.
    now apply lookup_union_Some_l.
Qed.

Lemma SetQueryParam_overwrites_witness :
  exists w',
    (r1 ← SetQueryParam 1%positive "q" "x" ; SetQueryParam r1 "q" "y") path_world
    = Some (1%positive, w').
Proof.
  destruct (SetQueryParam_overwrites Sample.order 1%positive path_world path_request
              "q" "x" "y" {[ "q" := "y" ]} range_ok_order eq_refl)
    as [(w' & Hrun & _) _].
  exists w'. exact Hrun.
Defined.

(** ** Bearer token *)

Fixpoint spaces (n : nat) : string :=
  match n with O => "" | S k => String " " (spaces k) end.

Lemma trim_left_cons (c : ascii) (s : string) :
  trim_left_space (String c s) =
  if Ascii.eqb c " " then trim_left_space s else String c s.
Proof. destruct c as [[] [] [] [] [] [] [] []]; reflexivity. Qed.

Lemma trim_left_spec (s : string) :
  (exists a, s = spaces a ++ trim_left_space s) /\
  forall u, trim_left_space s <> String " " u.
Proof.
  induction s as [|c s [[a Ha] Hn]].
  - split; [exists 0; reflexivity | discriminate].
  - rewrite trim_left_cons. destruct (Ascii.eqb c " ") eqn:Hc.
    + apply Ascii.eqb_eq in Hc as ->. split; [|exact Hn].
      exists (S a). cbn [spaces]. rewrite append_cons. now rewrite <- Ha.
    + split; [exists 0; reflexivity|].
      intros u Hu. injection Hu as -> _. now rewrite Ascii.eqb_refl in Hc.
Qed.

Lemma list_ascii_app (a b : string) :
  list_ascii_of_string (a ++ b) = (list_ascii_of_string a ++ list_ascii_of_string b)%list.
Proof.
  induction a as [|c a IH]; [reflexivity|].
  rewrite append_cons. cbn [list_ascii_of_string]. now rewrite IH.
Qed.

Lemma string_of_list_app (l1 l2 : list ascii) :
  string_of_list_ascii (l1 ++ l2)%list = string_of_list_ascii l1 ++ string_of_list_ascii l2.
Proof.
  induction l1 as [|c l1 IH]; [reflexivity|].
  cbn [app string_of_list_ascii]. rewrite append_cons. now rewrite IH.
Qed.

Lemma rev_string_app (a b : string) :
  rev_string (a ++ b) = rev_string b ++ rev_string a.
Proof.
  unfold rev_string. now rewrite list_ascii_app, rev_app_distr, string_of_list_app.
Qed.

Lemma rev_string_involutive (s : string) : rev_string (rev_string s) = s.
Proof.
  unfold rev_string. rewrite list_ascii_of_string_of_list_ascii, rev_involutive.
  apply string_of_list_ascii_of_string.
Qed.

Lemma rev_string_spaces (n : nat) : rev_string (spaces n) = spaces n.
Proof.
  assert (H : list_ascii_of_string (spaces n) = repeat " "%char n).
  { induction n as [|n IH]; [reflexivity|]. cbn. now rewrite IH. }
  unfold rev_string. rewrite H, rev_repeat, <- H.
  apply string_of_list_ascii_of_string.
Qed.

(** [strings.Trim(s, " ")] removes exactly the leading and trailing
    spaces. *)
Lemma trim_space_spec (s : string) :
  (exists a b, s = spaces a ++ trim_space s ++ spaces b) /\
  (forall u, trim_space s <> String " " u) /\
  (forall u, trim_space s <> u ++ " ").
Proof.
  destruct (trim_left_spec s) as [[a Ha] Hn1].
  set (t1 := trim_left_space s) in *.
  destruct (trim_left_spec (rev_string t1)) as [[b Hb] Hn2].
  set (t2 := trim_left_space (rev_string t1)) in *.
  assert (Ht1 : t1 = rev_string t2 ++ spaces b).
  { rewrite <- (rev_string_involutive t1), Hb, rev_string_app.
    now rewrite rev_string_spaces. }
  unfold trim_space. fold t1. fold t2.
  split; [|split].
  - exists a, b. rewrite Ha at 1. now rewrite Ht1.
  - intros u Hu. apply (Hn1 (u ++ spaces b)). rewrite Ht1, Hu. reflexivity.
  - intros u Hu. apply (Hn2 (rev_string u)).
    rewrite <- (rev_string_involutive t2), Hu, rev_string_app. reflexivity.
Qed.

(** C8: [SetBearerToken(t)] sets the Authorization header of the builder
    to "Bearer " followed by [t] without its leading and trailing spaces,
    changes nothing else, and returns the same builder. *)
Theorem SetBearerToken_header (r : loc) (token : string) (w : world) (q : Request) :
  heap w !! r = Some q ->
  SetBearerToken r token w =
  Some (r, mkWorld (<[r := set_headers q (<[HeaderAuthorization :=
                       "Bearer " ++ trim_space token]> (headers q))]> (heap w))
                   (events w)) /\
  (exists a b, token = spaces a ++ trim_space token ++ spaces b) /\
  (forall u, trim_space token <> String " " u) /\
  (forall u, trim_space token <> u ++ " ").
Proof.
  intros Hr. split; [|apply trim_space_spec].
  unfold SetBearerToken. unfold_go. now rewrite Hr.
Qed.

Lemma SetBearerToken_header_witness :
  SetBearerToken 1%positive "  abc " path_world =
  Some (1%positive, mkWorld (<[1%positive := set_headers path_request
          (<[HeaderAuthorization := "Bearer abc"]> (headers path_request))]>
          (heap path_world)) []).
Proof.
  exact (proj1 (SetBearerToken_header 1%positive "  abc " path_world path_request
                  eq_refl)).
Defined.

Example basic_ex : Base64.EncodeToString "Aladdin:open sesame" = "QWxhZGRpbjpvcGVuIHNlc2FtZQ==".
Proof. reflexivity. Qed.
Example basic_ex2 : Base64.EncodeToString "ab" = "YWI=" /\ Base64.EncodeToString "abc" = "YWJj".
Proof. split; reflexivity. Qed.

(* ================================================================== *)
(** * Further properties of the package *)

(** ** Path parameters and headers *)

Lemma iter_SetPathParam (r : loc) (l : list (string * string)) :
  forall (w : world) (q : Request), heap w !! r = Some q ->
  iter l (fun '(name, value) => _ ← SetPathParam r name value ; ret tt) w =
  Some (tt, mkWorld (<[r := set_pathParams q (insert_all l (pathParams q))]> (heap w))
                    (events w)).
Proof.
  induction l as [|[k x] l IH]; intros w q Hr.
  - cbn. unfold ret. f_equal. f_equal. destruct w as [h e]. cbn in *. f_equal.
    rewrite insert_id; [reflexivity|]. rewrite Hr. now destruct q.
  - cbn [iter]. unfold_go. cbv [SetPathParam]. unfold_go. rewrite Hr.
    cbn [heap events].
    rewrite (IH _ (set_pathParams q (<[k := x]> (pathParams q))))
      by (cbn; apply lookup_insert_eq).
    cbn [heap events]. now rewrite insert_insert_eq.
Qed.

Lemma iter_SetHeader (r : loc) (l : list (string * string)) :
  forall (w : world) (q : Request), heap w !! r = Some q ->
  iter l (fun '(name, value) => _ ← SetHeader r name value ; ret tt) w =
  Some (tt, mkWorld (<[r := set_headers q (insert_all l (headers q))]> (heap w))
                    (events w)).
Proof.
  induction l as [|[k x] l IH]; intros w q Hr.
  - cbn. unfold ret. f_equal. f_equal. destruct w as [h e]. cbn in *. f_equal.
    rewrite insert_id; [reflexivity|]. rewrite Hr. now destruct q.
  - cbn [iter]. unfold_go. rewrite Hr.
    cbn [heap events].
    rewrite (IH _ (set_headers q (<[k := x]> (headers q))))
      by (cbn; apply lookup_insert_eq).
    cbn [heap events]. now rewrite insert_insert_eq.
Qed.

(** [SetPathParams(params)] merges [params] into the builder's path
    parameters, the given values winning over those already set, whatever
    order Go visits [params] in; it returns the same builder and touches
    nothing else. *)
Theorem SetPathParams_merge (ro : range_oracle) (r : loc) (w : world) (q : Request)
    (params : gmap string string) :
  range_ok ro ->
  heap w !! r = Some q ->
  SetPathParams ro r params w =
  Some (r, mkWorld (<[r := set_pathParams q (params ∪ pathParams q)]> (heap w))
                   (events w)).
Proof.
  intros Hro Hr. unfold SetPathParams. unfold_go.
  rewrite (iter_SetPathParam r _ w q Hr). cbn.
  now rewrite insert_all_range by exact Hro.
Qed.

Lemma SetPathParams_merge_witness :
  SetPathParams Sample.order 1%positive {[ ":id" := "7" ]} path_world =
  Some (1%positive, mkWorld (<[1%positive := set_pathParams path_request
          ({[ ":id" := "7" ]} ∪ pathParams path_request)]> (heap path_world)) []).
Proof.
  exact (SetPathParams_merge Sample.order 1%positive path_world path_request
           {[ ":id" := "7" ]} range_ok_order eq_refl).
Defined.

(** [SetHeaders(hs)] merges [hs] into the builder's headers, the given
    values winning, whatever order Go visits [hs] in. *)
Theorem SetHeaders_merge (ro : range_oracle) (r : loc) (w : world) (q : Request)
    (hs : gmap string string) :
  range_ok ro ->
  heap w !! r = Some q ->
  SetHeaders ro r hs w =
  Some (r, mkWorld (<[r := set_headers q (hs ∪ headers q)]> (heap w)) (events w)).
Proof.
  intros Hro Hr. unfold SetHeaders. unfold_go.
  rewrite (iter_SetHeader r _ w q Hr). cbn.
  now rewrite insert_all_range by exact Hro.
Qed.

Lemma SetHeaders_merge_witness :
  SetHeaders Sample.order 1%positive {[ HeaderContentType := MIMEApplicationXML ]}
    path_world =
  Some (1%positive, mkWorld (<[1%positive := set_headers path_request
          ({[ HeaderContentType := MIMEApplicationXML ]} ∪ headers path_request)]>
          (heap path_world)) []).
Proof.
  exact (SetHeaders_merge Sample.order 1%positive path_world path_request
           {[ HeaderContentType := MIMEApplicationXML ]} range_ok_order eq_refl).
Defined.

(** ** Basic authentication *)

(** A base64 decoder, the inverse of the standard encoding, used to state
    that the Authorization header of [SetBasicAuth] gives back the
    credentials. *)
Definition dec_index (c : ascii) : nat :=
  let n := nat_of_ascii c in
  if in_range 65 90 c then n - 65
  else if in_range 97 122 c then n - 71
  else if in_range 48 57 c then n + 4
  else if Ascii.eqb c "+" then 62 else 63.

Fixpoint b64_decode (s : string) : list ascii :=
  match s with
  | String c1 (String c2 (String c3 (String c4 rest))) =>
      let i1 := dec_index c1 in
      let i2 := dec_index c2 in
      let i3 := dec_index c3 in
      let i4 := dec_index c4 in
      let a := ascii_of_nat (i1 * 4 + i2 / 16) in
      if Ascii.eqb c3 "=" then [a]
      else
        let b := ascii_of_nat ((i2 mod 16) * 16 + i3 / 4) in
        if Ascii.eqb c4 "=" then [a; b]
        else a :: b :: ascii_of_nat ((i3 mod 4) * 64 + i4) :: b64_decode rest
  | _ => []
  end.

Lemma enc_char_index (i : nat) :
  i < 64 -> dec_index (Base64.enc_char i) = i /\ Ascii.eqb (Base64.enc_char i) "=" = false.
Proof.
  intros Hi. do 64 (destruct i as [|i]; [split; reflexivity|]). lia.
Qed.

Lemma div_mod_small (a b k : nat) :
  b < k -> (a * k + b) / k = a /\ (a * k + b) mod k = b.
Proof.
  intros Hb. assert (Hk : k <> 0) by lia. split.
  - rewrite Nat.div_add_l by exact Hk. rewrite Nat.div_small by exact Hb. lia.
  - rewrite Nat.add_comm, Nat.Div0.mod_add. now apply Nat.mod_small.
Qed.

Lemma b64_group (x y z : nat) :
  x < 256 -> y < 256 -> z < 256 ->
  x / 4 < 64 /\ (x mod 4) * 16 + y / 16 < 64 /\ (y mod 16) * 4 + z / 64 < 64 /\
  z mod 64 < 64 /\ (x mod 4) * 16 < 64 /\ (y mod 16) * 4 < 64 /\
  (x / 4) * 4 + ((x mod 4) * 16 + y / 16) / 16 = x /\
  (((x mod 4) * 16 + y / 16) mod 16) * 16 + ((y mod 16) * 4 + z / 64) / 4 = y /\
  (((y mod 16) * 4 + z / 64) mod 4) * 64 + z mod 64 = z /\
  (x / 4) * 4 + ((x mod 4) * 16) / 16 = x /\
  (((x mod 4) * 16 + y / 16) mod 16) * 16 + ((y mod 16) * 4) / 4 = y.
Proof.
  intros Hx Hy Hz.
  assert (y / 16 < 16) by (apply Nat.Div0.div_lt_upper_bound; lia).
  assert (z / 64 < 4) by (apply Nat.Div0.div_lt_upper_bound; lia).
  assert (x / 4 < 64) by (apply Nat.Div0.div_lt_upper_bound; lia).
  pose proof (Nat.mod_upper_bound x 4 ltac:(lia)).
  pose proof (Nat.mod_upper_bound y 16 ltac:(lia)).
  pose proof (Nat.mod_upper_bound z 64 ltac:(lia)).
  destruct (div_mod_small (x mod 4) (y / 16) 16) as [E1 E2]; [lia|].
  destruct (div_mod_small (y mod 16) (z / 64) 4) as [E3 E4]; [lia|].
  destruct (div_mod_small (x mod 4) 0 16) as [E5 _]; [lia|].
  destruct (div_mod_small (y mod 16) 0 4) as [E6 _]; [lia|].
  rewrite Nat.add_0_r in E5, E6.
  rewrite E1, E2, E3, E4, E5, E6.
  pose proof (Nat.div_mod_eq x 4). pose proof (Nat.div_mod_eq y 16).
  pose proof (Nat.div_mod_eq z 64). lia.
Qed.

Lemma b64_roundtrip (l : list ascii) : b64_decode (Base64.encode l) = l.
Proof.
  remember (length l) as n eqn:Hn. revert l Hn.
  induction n as [n IH] using lt_wf_ind. intros l Hn.
  destruct l as [|a [|b [|c rest]]]; [reflexivity| | |].
  all: pose proof (nat_ascii_bounded a).
  - cbn [Base64.encode b64_decode].
    destruct (b64_group (nat_of_ascii a) 0 0) as (G1 & _ & _ & _ & G5 & _ & _ & _ & _ & G10 & _);
      try lia.
    destruct (enc_char_index _ G1) as [-> _]. destruct (enc_char_index _ G5) as [-> _].
    cbn [Ascii.eqb]. rewrite G10. now rewrite ascii_nat_embedding.
  - pose proof (nat_ascii_bounded b). cbn [Base64.encode b64_decode].
    destruct (b64_group (nat_of_ascii a) (nat_of_ascii b) 0)
      as (G1 & G2 & _ & _ & _ & G6 & G7 & _ & _ & _ & G11); try lia.
    destruct (enc_char_index _ G1) as [-> _]. destruct (enc_char_index _ G2) as [-> _].
    destruct (enc_char_index _ G6) as [-> ->].
    rewrite G7, G11. now rewrite !ascii_nat_embedding.
  - pose proof (nat_ascii_bounded b). pose proof (nat_ascii_bounded c).
    cbn [Base64.encode b64_decode].
    destruct (b64_group (nat_of_ascii a) (nat_of_ascii b) (nat_of_ascii c))
      as (G1 & G2 & G3 & G4 & _ & _ & G7 & G8 & G9 & _ & _); try lia.
    destruct (enc_char_index _ G1) as [-> _]. destruct (enc_char_index _ G2) as [-> _].
    destruct (enc_char_index _ G3) as [-> ->]. destruct (enc_char_index _ G4) as [-> ->].
    rewrite G7, G8, G9, !ascii_nat_embedding.
    rewrite (IH (length rest)); [reflexivity| |reflexivity]. subst n. cbn. lia.
Qed.

(** [SetBasicAuth(user, password)] sets the Authorization header to
    "Basic " followed by the standard base64 encoding of "user:password",
    which decodes back to exactly those bytes; it returns the same builder
    and changes nothing else. *)
Theorem SetBasicAuth_header (r : loc) (userName password : string) (w : world)
    (q : Request) :
  heap w !! r = Some q ->
  exists enc,
    SetBasicAuth r userName password w =
    Some (r, mkWorld (<[r := set_headers q (<[HeaderAuthorization :=
                         "Basic " ++ enc]> (headers q))]> (heap w)) (events w)) /\
    b64_decode enc = list_ascii_of_string (userName ++ ":" ++ password).
Proof.
  intros Hr. exists (Base64.EncodeToString (userName ++ ":" ++ password)).
  split.
  - unfold SetBasicAuth. unfold_go. now rewrite Hr.
  - apply b64_roundtrip.
Qed.

Lemma SetBasicAuth_header_witness :
  exists enc,
    SetBasicAuth 1%positive "Aladdin" "open sesame" path_world =
    Some (1%positive, mkWorld (<[1%positive := set_headers path_request
            (<[HeaderAuthorization := "Basic " ++ enc]> (headers path_request))]>
            (heap path_world)) []) /\
    b64_decode enc = list_ascii_of_string "Aladdin:open sesame".
Proof.
  exact (SetBasicAuth_header 1%positive "Aladdin" "open sesame" path_world path_request
           eq_refl).
Defined.

(** ** The request [Do] sends and how it treats the answer *)

(** The builder after [Do] has written Content-Length for the body [b]. *)
Definition with_length (q : Request) (b : string) : Request :=
  set_headers q (<[HeaderContentLength := nat_decimal (String.length b)]> (headers q)).

(** The [*http.Request] that [Do] hands to the client for builder [q] and
    marshaled body [b]. *)
Definition sent_request (ro : range_oracle) (q : Request) (method : Method)
    (URL b : string) : http_request :=
  mkHttpRequest method (build_url ro q URL) b (context q)
                (copy_headers ro (headers (with_length q b))).

Ltac do_prefix Hr Hm Hn :=
  unfold Do; unfold_go; rewrite Hr, Hm; unfold_go; rewrite Hr; cbn [heap events];
  rewrite Hn; cbn [heap events]; rewrite lookup_insert_eq;
  cbn [client context headers set_headers].

Section DoResponse.

Variables (env : Env) (ro : range_oracle) (r : loc) (method : Method) (URL : string)
          (w : world) (q : Request) (b : string).
Hypothesis Hr : heap w !! r = Some q.
Hypothesis Hm : marshal env q (body q) = Ok b.
Hypothesis Hn : new_request_check env method (build_url ro q URL) = None.

Let hr := sent_request ro q method URL b.
Let H' := <[r := with_length q b]> (heap w).

(** An error of the transport is returned as it is, after the single
    call; the body of no response is touched. *)
Theorem Do_transport_error (out : option sink) (e : error) :
  inner_do (client q) hr = Err e ->
  Do env ro r method URL out w = Some (Some e, mkWorld H' (app (events w) [EvSend hr])).
Proof.
  intros Ht. do_prefix Hr Hm Hn. unfold hr, sent_request, with_length in Ht.
  cbn [headers set_headers] in Ht. rewrite Ht. reflexivity.
Qed.

(** On a success status an error reading the body is returned at once:
    the body is read but never closed. *)
Theorem Do_read_error (out : option sink) (res : response) (e : error) :
  inner_do (client q) hr = Ok res ->
  IsSuccess (res_status res) = true ->
  res_read_err res = Some e ->
  Do env ro r method URL out w =
  Some (Some e, mkWorld H' (app (events w) [EvSend hr; EvReadBody])).
Proof.
  intros Ht Hs He. do_prefix Hr Hm Hn. unfold hr, sent_request, with_length in Ht.
  cbn [headers set_headers] in Ht. rewrite Ht. unfold NewStatus. rewrite Hs.
  cbn [negb heap events]. rewrite He. now rewrite <- app_assoc.
Qed.

(** An error closing the body is returned, even when no output was
    asked for; the body has been read and closed. *)
Theorem Do_close_error (out : option sink) (res : response) (e : error) :
  inner_do (client q) hr = Ok res ->
  IsSuccess (res_status res) = true ->
  res_read_err res = None ->
  res_close_err res = Some e ->
  Do env ro r method URL out w =
  Some (Some e, mkWorld H' (app (events w) [EvSend hr; EvReadBody; EvCloseBody])).
Proof.
  intros Ht Hs He Hc. do_prefix Hr Hm Hn. unfold hr, sent_request, with_length in Ht.
  cbn [headers set_headers] in Ht. rewrite Ht. unfold NewStatus. rewrite Hs.
  cbn [negb heap events]. rewrite He. cbn [heap events]. rewrite Hc.
  now rewrite <- !app_assoc.
Qed.

(** With a nil output, a success answer whose body reads and closes
    cleanly gives a nil error whatever its content type and body. *)
Theorem Do_nil_output (res : response) :
  inner_do (client q) hr = Ok res ->
  IsSuccess (res_status res) = true ->
  res_read_err res = None ->
  res_close_err res = None ->
  Do env ro r method URL None w =
  Some (None, mkWorld H' (app (events w) [EvSend hr; EvReadBody; EvCloseBody])).
Proof.
  intros Ht Hs He Hc. do_prefix Hr Hm Hn. unfold hr, sent_request, with_length in Ht.
  cbn [headers set_headers] in Ht. rewrite Ht. unfold NewStatus. rewrite Hs.
  cbn [negb heap events]. rewrite He. cbn [heap events]. rewrite Hc.
  now rewrite <- !app_assoc.
Qed.

(** With an output, a success answer without a Content-Type header
    gives the auto-detection error, after the body was read and closed. *)
Theorem Do_missing_response_format (o : sink) (res : response) :
  inner_do (client q) hr = Ok res ->
  IsSuccess (res_status res) = true ->
  res_read_err res = None ->
  res_close_err res = None ->
  header_get (res_header res) HeaderContentType = "" ->
  Do env ro r method URL (Some o) w =
  Some (Some (err_no_format HeaderContentType),
        mkWorld H' (app (events w) [EvSend hr; EvReadBody; EvCloseBody])).
Proof.
  intros Ht Hs He Hc Hct. do_prefix Hr Hm Hn. unfold hr, sent_request, with_length in Ht.
  cbn [headers set_headers] in Ht. rewrite Ht. unfold NewStatus. rewrite Hs.
  cbn [negb heap events]. rewrite He. cbn [heap events]. rewrite Hc. rewrite Hct.
  now rewrite <- !app_assoc.
Qed.

(** With an output and a Content-Type [ct], the read body is decoded by
    the codec [ct] selects, and its error is [Do]'s result. *)
Theorem Do_decodes_by_content_type (o : sink) (res : response) (ct : string) :
  inner_do (client q) hr = Ok res ->
  IsSuccess (res_status res) = true ->
  res_read_err res = None ->
  res_close_err res = None ->
  header_get (res_header res) HeaderContentType = ct ->
  String.eqb ct "" = false ->
  Do env ro r method URL (Some o) w =
  Some (unmarshall env ct (res_body res) o,
        mkWorld H' (app (events w) [EvSend hr; EvReadBody; EvCloseBody])).
Proof.
  intros Ht Hs He Hc Hct Hne. do_prefix Hr Hm Hn. unfold hr, sent_request, with_length in Ht.
  cbn [headers set_headers] in Ht. rewrite Ht. unfold NewStatus. rewrite Hs.
  cbn [negb heap events]. rewrite He. cbn [heap events]. rewrite Hc. rewrite Hct, Hne.
  unfold NewMIME. now rewrite <- !app_assoc.
Qed.

(** A Content-Type that is not literally one of the four JSON and XML
    MIME constants (a different case, spacing or parameter) is rejected
    with an error that names it, without calling a decoder. *)
Theorem Do_unknown_response_format (o : sink) (res : response) (ct : string) :
  inner_do (client q) hr = Ok res ->
  IsSuccess (res_status res) = true ->
  res_read_err res = None ->
  res_close_err res = None ->
  header_get (res_header res) HeaderContentType = ct ->
  String.eqb ct "" = false ->
  is_json ct = false -> is_xml ct = false ->
  Do env ro r method URL (Some o) w =
  Some (Some ("deserializing format '" ++ ct ++ "' is not supported"),
        mkWorld H' (app (events w) [EvSend hr; EvReadBody; EvCloseBody])).
Proof.
  intros Ht Hs He Hc Hct Hne Hj Hx. do_prefix Hr Hm Hn.
  unfold hr, sent_request, with_length in Ht.
  cbn [headers set_headers] in Ht. rewrite Ht. unfold NewStatus. rewrite Hs.
  cbn [negb heap events]. rewrite He. cbn [heap events]. rewrite Hc. rewrite Hct, Hne.
  unfold NewMIME, unmarshall. rewrite Hj, Hx. now rewrite <- !app_assoc.
Qed.

End DoResponse.

(** When [http.NewRequest] rejects the method or the URL, [Do] returns
    its error without calling the client, but the builder already holds
    the Content-Length header. *)
Theorem Do_new_request_error (env : Env) (ro : range_oracle) (r : loc)
    (method : Method) (URL : string) (out : option sink) (w : world)
    (q : Request) (b : string) (e : error) :
  heap w !! r = Some q ->
  marshal env q (body q) = Ok b ->
  new_request_check env method (build_url ro q URL) = Some e ->
  Do env ro r method URL out w =
  Some (Some e, mkWorld (<[r := with_length q b]> (heap w)) (events w)).
Proof.
  intros Hr Hm Hn. unfold Do. unfold_go. rewrite Hr, Hm. unfold_go. rewrite Hr.
  cbn [heap events]. now rewrite Hn.
Qed.

(** ** Header keys on the wire *)

Lemma upper_upper (c : ascii) : upper (upper c) = upper c.
Proof. destruct c as [[] [] [] [] [] [] [] []]; reflexivity. Qed.

Lemma lower_lower (c : ascii) : lower (lower c) = lower c.
Proof. destruct c as [[] [] [] [] [] [] [] []]; reflexivity. Qed.

Lemma upper_dash (c : ascii) : Ascii.eqb (upper c) "-" = Ascii.eqb c "-".
Proof. destruct c as [[] [] [] [] [] [] [] []]; reflexivity. Qed.

Lemma lower_dash (c : ascii) : Ascii.eqb (lower c) "-" = Ascii.eqb c "-".
Proof. destruct c as [[] [] [] [] [] [] [] []]; reflexivity. Qed.

Lemma upper_token (c : ascii) : token_byte (upper c) = token_byte c.
Proof. destruct c as [[] [] [] [] [] [] [] []]; reflexivity. Qed.

Lemma lower_token (c : ascii) : token_byte (lower c) = token_byte c.
Proof. destruct c as [[] [] [] [] [] [] [] []]; reflexivity. Qed.

Lemma canon_aux_spec (s : string) : forall up,
  forallb token_byte (list_ascii_of_string (canon_aux up s)) =
    forallb token_byte (list_ascii_of_string s) /\
  canon_aux up (canon_aux up s) = canon_aux up s.
Proof.
  induction s as [|c s IH]; intros up; [split; reflexivity|].
  cbn [canon_aux list_ascii_of_string forallb].
  destruct (IH (Ascii.eqb c "-")) as [H1 H2].
  destruct up.
  - rewrite upper_token, upper_upper, upper_dash, H1, H2. split; reflexivity.
  - rewrite lower_token, lower_lower, lower_dash, H1, H2. split; reflexivity.
Qed.

Lemma canonical_header_key_idem (s : string) :
  canonical_header_key (canonical_header_key s) = canonical_header_key s.
Proof.
  unfold canonical_header_key.
  destruct (forallb token_byte (list_ascii_of_string s)) eqn:Ht.
  - destruct (canon_aux_spec s true) as [H1 H2]. now rewrite H1, Ht, H2.
  - now rewrite Ht.
Qed.

Definition copy_step (acc : gmap string string) (kv : string * string)
    : gmap string string :=
  let '(name, value) := kv in <[canonical_header_key name := value]> acc.

Lemma copy_headers_fold (ro : range_oracle) (h : gmap string string) :
  copy_headers ro h = fold_left copy_step (range_ss ro h) ∅.
Proof. reflexivity. Qed.

Lemma copy_fold_source (l : list (string * string)) : forall acc k x,
  fold_left copy_step l acc !! k = Some x ->
  acc !! k = Some x \/ exists k', canonical_header_key k' = k /\ In (k', x) l.
Proof.
  induction l as [|[k0 x0] l IH]; intros acc k x H; [now left|].
  cbn [fold_left copy_step] in H. destruct (IH _ _ _ H) as [Ha|(k' & Hk & Hin)].
  - apply lookup_insert_Some in Ha as [[<- <-]|[_ Ha]].
    + right. exists k0. split; [reflexivity|now left].
    + now left.
  - right. exists k'. split; [exact Hk|now right].
Qed.

Lemma copy_fold_keeps (l : list (string * string)) : forall acc k,
  is_Some (acc !! k) -> is_Some (fold_left copy_step l acc !! k).
Proof.
  induction l as [|[k0 x0] l IH]; intros acc k H; [exact H|].
  cbn [fold_left copy_step]. apply IH.
  destruct (decide (canonical_header_key k0 = k)) as [<-|Hne].
  - rewrite lookup_insert_eq. eauto.
  - now rewrite lookup_insert_ne.
Qed.

Lemma copy_fold_target (l : list (string * string)) : forall acc k' x,
  In (k', x) l -> is_Some (fold_left copy_step l acc !! canonical_header_key k').
Proof.
  induction l as [|[k0 x0] l IH]; intros acc k' x Hin; [destruct Hin|].
  cbn [fold_left copy_step]. destruct Hin as [Heq|Hin].
  - injection Heq as -> ->. apply copy_fold_keeps. rewrite lookup_insert_eq. eauto.
  - eapply IH. exact Hin.
Qed.

(** The headers [Do] hands to the client are the builder's headers
    under their canonical keys ([Header.Set]): every key sent is
    canonical, every value sent is the value of a builder header with that
    canonical form, and every builder header is sent under its canonical
    key. *)
Theorem copy_headers_canonical_keys (ro : range_oracle) (h : gmap string string) :
  range_ok ro ->
  (forall k x, copy_headers ro h !! k = Some x ->
     canonical_header_key k = k /\
     exists k', canonical_header_key k' = k /\ h !! k' = Some x) /\
  (forall k' x', h !! k' = Some x' -> is_Some (copy_headers ro h !! canonical_header_key k')).
Proof.
  intros Hro. rewrite copy_headers_fold. split.
  - intros k x H. apply copy_fold_source in H as [H|(k' & Hk & Hin)];
      [now rewrite lookup_empty in H|].
    apply list_elem_of_In in Hin. rewrite (Hro h) in Hin.
    apply elem_of_map_to_list in Hin. subst k.
    split; [apply canonical_header_key_idem|]. eauto.
  - intros k' x' H. apply (copy_fold_target _ _ _ x').
    apply list_elem_of_In. rewrite (Hro h). now apply elem_of_map_to_list.
Qed.

Lemma copy_fold_insert_all (l : list (string * string)) : forall acc,
  Forall (fun kv => canonical_header_key kv.1 = kv.1) l ->
  fold_left copy_step l acc = insert_all l acc.
Proof.
  induction l as [|[k x] l IH]; intros acc Hf; [reflexivity|].
  apply Forall_cons in Hf as [Hk Hf]. cbn [fst] in Hk.
  cbn [fold_left copy_step insert_all]. rewrite Hk. now apply IH.
Qed.

(** A builder whose header keys are all in canonical form has its
    headers sent unchanged. *)
Definition canonical_keys (h : gmap string string) : bool :=
  forallb (fun kv => String.eqb (canonical_header_key kv.1) kv.1) (map_to_list h).

Theorem copy_headers_id (ro : range_oracle) (h : gmap string string) :
  range_ok ro ->
  canonical_keys h = true ->
  copy_headers ro h = h.
Proof.
  intros Hro Hc.
  assert (Hk : forall k x, h !! k = Some x -> canonical_header_key k = k).
  { intros k x Hkx. unfold canonical_keys in Hc. rewrite forallb_forall in Hc.
    apply String.eqb_eq, (Hc (k, x)), list_elem_of_In, elem_of_map_to_list, Hkx. }
  rewrite copy_headers_fold, copy_fold_insert_all.
  - unfold insert_all in *. rewrite insert_all_range by exact Hro.
    apply map_union_empty.
  - apply Forall_forall. intros [k x] Hin. cbn [fst].
    rewrite (Hro h) in Hin. apply elem_of_map_to_list in Hin. eapply Hk. exact Hin.
Qed.

(** ** Concrete runs for the properties above *)

Definition empty_builder (c : Client) : Request := mkRequest c ∅ ∅ ∅ Background None.
Definition reply_world (c : Client) : world := mkWorld {[ 1%positive := empty_builder c ]} [].

Definition refused : Client := mkClient (fun _ => Err "dial tcp: connection refused").
Definition answer (status : Z) (h : gmap string string) (read close : option error)
    : Client :=
  mkClient (fun _ => Ok (mkResponse status h "{}" read close)).

Definition get_items (c : Client) (out : option sink) : option (option error * world) :=
  Do Sample.env Sample.order 1%positive MethodGet "http://host/items" out (reply_world c).

Definition get_sent (c : Client) : http_request :=
  sent_request Sample.order (empty_builder c) MethodGet "http://host/items" "".

Definition get_heap (c : Client) : gmap loc Request :=
  <[1%positive := with_length (empty_builder c) ""]> (heap (reply_world c)).

Lemma Do_transport_error_witness :
  get_items refused None =
  Some (Some "dial tcp: connection refused",
        mkWorld (get_heap refused) [EvSend (get_sent refused)]).
Proof.
  exact (Do_transport_error Sample.env Sample.order 1%positive MethodGet
           "http://host/items" (reply_world refused) (empty_builder refused) ""
           eq_refl eq_refl eq_refl None "dial tcp: connection refused" eq_refl).
Defined.

Lemma Do_read_error_witness :
  get_items (answer 200 ∅ (Some "unexpected EOF") None) (Some 1%positive) =
  Some (Some "unexpected EOF",
        mkWorld (get_heap (answer 200 ∅ (Some "unexpected EOF") None))
          [EvSend (get_sent (answer 200 ∅ (Some "unexpected EOF") None)); EvReadBody]).
Proof.
  exact (Do_read_error Sample.env Sample.order 1%positive MethodGet
           "http://host/items" (reply_world (answer 200 ∅ (Some "unexpected EOF") None))
           (empty_builder (answer 200 ∅ (Some "unexpected EOF") None)) ""
           eq_refl eq_refl eq_refl (Some 1%positive)
           (mkResponse 200 ∅ "{}" (Some "unexpected EOF") None) "unexpected EOF"
           eq_refl eq_refl eq_refl).
Defined.

Lemma Do_close_error_witness :
  get_items (answer 204 ∅ None (Some "close failed")) None =
  Some (Some "close failed",
        mkWorld (get_heap (answer 204 ∅ None (Some "close failed")))
          [EvSend (get_sent (answer 204 ∅ None (Some "close failed")));
           EvReadBody; EvCloseBody]).
Proof.
  exact (Do_close_error Sample.env Sample.order 1%positive MethodGet
           "http://host/items" (reply_world (answer 204 ∅ None (Some "close failed")))
           (empty_builder (answer 204 ∅ None (Some "close failed"))) ""
           eq_refl eq_refl eq_refl None
           (mkResponse 204 ∅ "{}" None (Some "close failed")) "close failed"
           eq_refl eq_refl eq_refl eq_refl).
Defined.

Lemma Do_nil_output_witness :
  get_items (answer 200 {[ "Content-Type" := MIMETextPlain ]} None None) None =
  Some (None,
        mkWorld (get_heap (answer 200 {[ "Content-Type" := MIMETextPlain ]} None None))
          [EvSend (get_sent (answer 200 {[ "Content-Type" := MIMETextPlain ]} None None));
           EvReadBody; EvCloseBody]).
Proof.
  exact (Do_nil_output Sample.env Sample.order 1%positive MethodGet
           "http://host/items"
           (reply_world (answer 200 {[ "Content-Type" := MIMETextPlain ]} None None))
           (empty_builder (answer 200 {[ "Content-Type" := MIMETextPlain ]} None None)) ""
           eq_refl eq_refl eq_refl
           (mkResponse 200 {[ "Content-Type" := MIMETextPlain ]} "{}" None None)
           eq_refl eq_refl eq_refl eq_refl).
Defined.

Lemma Do_missing_response_format_witness :
  get_items (answer 200 ∅ None None) (Some 1%positive) =
  Some (Some "could not auto-detect response format, header 'Content-Type' is not set",
        mkWorld (get_heap (answer 200 ∅ None None))
          [EvSend (get_sent (answer 200 ∅ None None)); EvReadBody; EvCloseBody]).
Proof.
  exact (Do_missing_response_format Sample.env Sample.order 1%positive MethodGet
           "http://host/items" (reply_world (answer 200 ∅ None None))
           (empty_builder (answer 200 ∅ None None)) "" eq_refl eq_refl eq_refl
           1%positive (mkResponse 200 ∅ "{}" None None)
           eq_refl eq_refl eq_refl eq_refl eq_refl).
Defined.

Lemma Do_decodes_by_content_type_witness :
  get_items (answer 200 {[ "Content-Type" := MIMEApplicationXML ]} None None)
    (Some 1%positive) =
  Some (Sample.env.(xml_unmarshal) "{}" 1%positive,
        mkWorld (get_heap (answer 200 {[ "Content-Type" := MIMEApplicationXML ]} None None))
          [EvSend (get_sent (answer 200 {[ "Content-Type" := MIMEApplicationXML ]} None None));
           EvReadBody; EvCloseBody]).
Proof.
  exact (Do_decodes_by_content_type Sample.env Sample.order 1%positive MethodGet
           "http://host/items"
           (reply_world (answer 200 {[ "Content-Type" := MIMEApplicationXML ]} None None))
           (empty_builder (answer 200 {[ "Content-Type" := MIMEApplicationXML ]} None None))
           "" eq_refl eq_refl eq_refl 1%positive
           (mkResponse 200 {[ "Content-Type" := MIMEApplicationXML ]} "{}" None None)
           MIMEApplicationXML eq_refl eq_refl eq_refl eq_refl eq_refl eq_refl).
Defined.

Definition lower_json : string := "application/json; charset=utf-8".

Lemma Do_unknown_response_format_witness :
  get_items (answer 200 {[ "Content-Type" := lower_json ]} None None) (Some 1%positive) =
  Some (Some "deserializing format 'application/json; charset=utf-8' is not supported",
        mkWorld (get_heap (answer 200 {[ "Content-Type" := lower_json ]} None None))
          [EvSend (get_sent (answer 200 {[ "Content-Type" := lower_json ]} None None));
           EvReadBody; EvCloseBody]).
Proof.
  exact (Do_unknown_response_format Sample.env Sample.order 1%positive MethodGet
           "http://host/items"
           (reply_world (answer 200 {[ "Content-Type" := lower_json ]} None None))
           (empty_builder (answer 200 {[ "Content-Type" := lower_json ]} None None))
           "" eq_refl eq_refl eq_refl 1%positive
           (mkResponse 200 {[ "Content-Type" := lower_json ]} "{}" None None)
           lower_json eq_refl eq_refl eq_refl eq_refl eq_refl eq_refl eq_refl eq_refl).
Defined.

Definition strict_env : Env :=
  mkEnv Sample.json_enc Sample.xml_enc (fun _ _ => None) (fun _ _ => None)
        (fun _ URL => if contains URL " " then Some "invalid character in URL" else None).

Lemma Do_new_request_error_witness :
  Do strict_env Sample.order 1%positive MethodGet "http://host/my items" None
     (reply_world (Sample.server 200)) =
  Some (Some "invalid character in URL",
        mkWorld (get_heap (Sample.server 200)) []).
Proof.
  exact (Do_new_request_error strict_env Sample.order 1%positive MethodGet
           "http://host/my items" None (reply_world (Sample.server 200))
           (empty_builder (Sample.server 200)) "" "invalid character in URL"
           eq_refl eq_refl eq_refl).
Defined.

Definition mixed_headers : gmap string string :=
  {[ "content-type" := MIMEApplicationJSON; "X-Request-Id" := "7" ]}.

Lemma copy_headers_canonical_keys_witness :
  (forall k x, copy_headers Sample.order mixed_headers !! k = Some x ->
     canonical_header_key k = k /\
     exists k', canonical_header_key k' = k /\ mixed_headers !! k' = Some x) /\
  (forall k' x', mixed_headers !! k' = Some x' ->
     is_Some (copy_headers Sample.order mixed_headers !! canonical_header_key k')).
Proof.
  exact (copy_headers_canonical_keys Sample.order mixed_headers range_ok_order).
Defined.

Lemma copy_headers_id_witness :
  copy_headers Sample.order (headers path_request) = headers path_request.
Proof.
  exact (copy_headers_id Sample.order (headers path_request) range_ok_order eq_refl).
Defined.
